(** * Reco-Buddy: the cascading AIS / broker-PNL reconciliation engine

    A shallow embedding of [RecoBuddy] (load_data, fuzzy_match_stocks,
    match_records) and the properties of its four-level matcher.

    Conventions of the embedding
    - a pandas cell is a [cell]: missing (NaN / NaT / None), a number, a
      string or a timestamp (nanoseconds);
    - a row (the Series handed out by [iterrows]) is a finite map from column
      label to cell, a DataFrame is its ordered column labels and its rows;
    - numbers are integers: quantities are share counts, and the exact
      equality tests of the source are exact integer tests here;
    - a Python exception is an [Err] result; the three that the engine can
      raise on tabular input are [KeyError], [AttributeError], [TypeError];
    - line 159 of the source lacks its closing parenthesis; the embedding
      reads the statement as the assignment of [range(1, len + 1)] that the
      next line repeats for the other table. *)

From Stdlib Require Import ZArith List String Ascii Lia Bool Sorted Permutation.
From stdpp Require Import gmap strings list fin_maps pretty.

Open Scope string_scope.
Open Scope list_scope.
Open Scope Z_scope.

(** ** Cells, rows, frames *)

Inductive cell : Type :=
| NA
| Num (z : Z)
| Str (s : string)
| Ts (t : Z).

Inductive error : Type :=
| KeyError (label : string)
| AttributeError
| TypeError.

Inductive result (A : Type) : Type :=
| Ok (a : A)
| Err (e : error).

Arguments Ok {A} a.
Arguments Err {A} e.

#[global] Instance result_ret : MRet result := fun A a => Ok a.

#[global] Instance result_bind : MBind result := fun A B k m =>
  match m with
  | Ok a => k a
  | Err e => Err e
  end.

Abbreviation row := (gmap string cell).

Record frame : Type := Frame {
  columns : list string;
  rows : list row
}.

(** ** NameResolver: [fuzzy_match_stocks] *)

(** [sub in s] on Python strings. *)
Fixpoint str_in (sub s : string) : bool :=
  String.prefix sub s ||
  match s with
  | EmptyString => false
  | String _ s' => str_in sub s'
  end.

Definition abbreviations : list (string * list string) :=
  [ ("RELIANCE", ["RIL"; "RELIANCE IND"; "RELIANCE INDUSTRIES"]);
    ("MAHARASHTRA BANK", ["MAHABANK"; "BANK OF MAHARASHTRA"]);
    ("HDFC BANK", ["HDFCBANK"]);
    ("LIC", ["LIFE INSURANCE CORP"]) ].

(** [x in values] on a Python list of strings. *)
Definition str_in_list (x : string) (values : list string) : bool :=
  existsb (String.eqb x) values.

(** The loop of lines 170-173: some window [name1[i:i+5]] occurs in [name2]. *)
Definition common_substring (name1 name2 : string) : bool :=
  existsb (fun i => str_in (substring i 5 name1) name2)
          (seq 0 (String.length name1 - 4)).

(** The loop of lines 183-187 over the abbreviation dictionary. *)
Definition abbreviation_hit (name1 name2 : string) : bool :=
  existsb (fun kv : string * list string =>
             (String.eqb name1 (fst kv) && str_in_list name2 (snd kv)) ||
             (String.eqb name2 (fst kv) && str_in_list name1 (snd kv)))
          abbreviations.

Section NameResolver.

(** [fuzz.token_set_ratio] of the fuzzywuzzy package, outside the repository. *)
Variable token_set_ratio : string -> string -> Z.

Definition fuzzy_match_stocks (name1 name2 : string) : Z :=
  if String.eqb name1 name2 then 100
  else if (5 <=? String.length name1)%nat && (5 <=? String.length name2)%nat
          && common_substring name1 name2 then 90
  else if abbreviation_hit name1 name2 then 95
  else token_set_ratio name1 name2.

End NameResolver.


(** ** DataFrame primitives *)

#[global] Instance cell_eq_dec : EqDecision cell.
Proof. solve_decision. Defined.

(** The value a row holds under a label; a label the row lacks reads as
    missing ([row.get(label, None)]). *)
Definition cell_of (r : row) (label : string) : cell :=
  default NA (r !! label).

(** [row[label]] *)
Definition row_get (r : row) (label : string) : result cell :=
  match r !! label with
  | Some c => Ok c
  | None => Err (KeyError label)
  end.

Definition has_column (df : frame) (label : string) : bool :=
  str_in_list label (columns df).

(** [df[label]] *)
Definition frame_col (df : frame) (label : string) : result (list cell) :=
  if has_column df label
  then Ok (map (fun r => cell_of r label) (rows df))
  else Err (KeyError label).

(** [df[label] = values] *)
Definition frame_assign (df : frame) (label : string) (values : list cell) : frame :=
  Frame (if has_column df label then columns df else columns df ++ [label])
        (zip_with (fun r v => <[label := v]> r) (rows df) values).

(** [df[label] = value], broadcast to every row. *)
Definition frame_assign_scalar (df : frame) (label : string) (value : cell) : frame :=
  frame_assign df label (map (fun _ => value) (rows df)).

(** [df[mask]] for a mask computed row by row. *)
Definition frame_filter (keep : row -> bool) (df : frame) : frame :=
  Frame (columns df) (List.filter keep (rows df)).

(** [df.drop(columns=labels)] *)
Definition frame_drop (df : frame) (labels : list string) : result frame :=
  match List.find (fun l => negb (has_column df l)) labels with
  | Some l => Err (KeyError l)
  | None =>
      Ok (Frame (List.filter (fun c => negb (str_in_list c labels)) (columns df))
                (map (fun r => foldr delete r labels) (rows df)))
  end.

(** [pd.isna] *)
Definition isna (c : cell) : bool :=
  match c with
  | NA => true
  | _ => false
  end.

(** Elementwise [==]: a missing value equals nothing, itself included. *)
Definition cell_eqb (x y : cell) : bool :=
  match x, y with
  | Num a, Num b => (a =? b)%Z
  | Str a, Str b => String.eqb a b
  | Ts a, Ts b => (a =? b)%Z
  | _, _ => false
  end.

(** [Series.isin]: membership, where a missing value is found among
    missing values. *)
Definition isin (x : cell) (values : list cell) : bool :=
  bool_decide (x ∈ values).

(** [Series.sum()]: missing values are skipped. *)
Definition cells_sum (cs : list cell) : Z :=
  fold_right (fun c acc => match c with Num z => z + acc | _ => acc end) 0 cs.

(** [Series.unique()]: first occurrences, in order. *)
Fixpoint unique_from (seen : list cell) (cs : list cell) : list cell :=
  match cs with
  | [] => []
  | c :: cs' =>
      if isin c seen then unique_from seen cs'
      else c :: unique_from (c :: seen) cs'
  end.

Definition unique (cs : list cell) : list cell := unique_from [] cs.

(** [', '.join(cells)]: a TypeError unless every item is a string. *)
Fixpoint join_names (cs : list cell) : result (list string) :=
  match cs with
  | [] => Ok []
  | Str s :: cs' => ss ← join_names cs'; Ok (s :: ss)
  | _ :: _ => Err TypeError
  end.

Definition comma_join (cs : list cell) : result cell :=
  ss ← join_names cs; Ok (Str (String.concat ", " ss)).

(** ** Normalizer: [load_data] *)

Definition upper_char (c : ascii) : ascii :=
  let n := nat_of_ascii c in
  if (97 <=? n)%nat && (n <=? 122)%nat then ascii_of_nat (n - 32) else c.

Fixpoint str_upper (s : string) : string :=
  match s with
  | EmptyString => EmptyString
  | String c s' => String (upper_char c) (str_upper s')
  end.

Definition is_space (c : ascii) : bool :=
  let n := nat_of_ascii c in
  ((9 <=? n)%nat && (n <=? 13)%nat) || ((28 <=? n)%nat && (n <=? 32)%nat).

Fixpoint lstrip (s : string) : string :=
  match s with
  | EmptyString => EmptyString
  | String c s' => if is_space c then lstrip s' else s
  end.

Fixpoint rstrip (s : string) : string :=
  match s with
  | EmptyString => EmptyString
  | String c s' =>
      match rstrip s' with
      | EmptyString => if is_space c then EmptyString else String c EmptyString
      | t => String c t
      end
  end.

Definition str_strip (s : string) : string := rstrip (lstrip s).

(** [.str.upper().str.strip()] on one cell: a value that is not a string
    comes out missing. *)
Definition clean_name (c : cell) : cell :=
  match c with
  | Str s => Str (str_strip (str_upper s))
  | _ => NA
  end.

Definition date_cols_ais : list string := ["Sale Date (AIS)"; "Purchase Date (AIS)"].
Definition date_cols_cg : list string := ["Sale Date (CG)"; "Purchase Date (CG)"].
Definition num_cols : list string :=
  ["Quantity (AIS)"; "Quantity (CG)"; "Sales Value (AIS)";
   "Sales Value (CG)"; "Purchase Value (AIS)"; "Purchase Value (CG)"].

(** [if col in df.columns: df[col] = f(df[col])] *)
Definition convert_column (f : cell -> cell) (df : frame) (label : string) : frame :=
  if has_column df label
  then frame_assign df label (map (fun r => f (cell_of r label)) (rows df))
  else df.

(** [range(1, n + 1)] *)
Definition id_range (n : nat) : list cell :=
  map (fun i => Num (Z.of_nat i)) (seq 1 n).

Section Engine.

(** The collaborators outside the repository: the token-overlap scorer of
    fuzzywuzzy and the cell coercions of [pd.to_datetime] and
    [pd.to_numeric] under [errors='coerce'] ([None]: unparsable). *)
Variable token_set_ratio : string -> string -> Z.
Variable to_datetime : cell -> option Z.
Variable to_numeric : cell -> option Z.

Definition datetime_cell (c : cell) : cell := from_option Ts NA (to_datetime c).
Definition numeric_cell (c : cell) : cell := from_option Num NA (to_numeric c).

Definition load_data (ais_df cg_df : frame) : result (frame * frame) :=
  names_ais ← frame_col ais_df "Stock Name (AIS)";
  let ais_data := frame_assign ais_df "Stock Name Clean" (map clean_name names_ais) in
  names_cg ← frame_col cg_df "Stock Name (CG)";
  let cg_data := frame_assign cg_df "Stock Name Clean" (map clean_name names_cg) in
  let ais_data := fold_left (convert_column datetime_cell) date_cols_ais ais_data in
  let cg_data := fold_left (convert_column datetime_cell) date_cols_cg cg_data in
  let ais_data := fold_left (convert_column numeric_cell) num_cols ais_data in
  let cg_data := fold_left (convert_column numeric_cell) num_cols cg_data in
  let ais_data := frame_assign ais_data "ID" (id_range (length (rows ais_data))) in
  let cg_data := frame_assign cg_data "ID" (id_range (length (rows cg_data))) in
  Ok (ais_data, cg_data).

(** ** Cascading Matcher: [match_records] *)

Inductive match_type : Type :=
| Level1
| Level2
| Level3 (best_score : Z)
| Level4 (best_score : Z).


(** One entry of [matches]. [mr_fields] holds the twelve paired columns in
    the order of the dictionary; [mr_ais_ids] and [mr_cg_ids] are the ['ID']
    cells of the AIS and CG rows the entry was built from. *)
Record match_record : Type := MatchRecord {
  mr_match_id : Z;
  mr_match_type : match_type;
  mr_fields : list (string * cell);
  mr_ais_ids : list cell;
  mr_cg_ids : list cell
}.

(** The local variables of [match_records] that the four loops update. *)
Record state : Type := State {
  unmatched_ais : frame;
  unmatched_cg : frame;
  matches : list match_record;
  match_id : Z
}.

Definition ids_of (rs : list row) : list cell :=
  map (fun r => cell_of r "ID") rs.

(** The dictionary built at lines 229-244, 264-279 and 303-318. *)
Definition pair_record (mid : Z) (ty : match_type) (ais_row cg_row : row)
  : result match_record :=
  name_a ← row_get ais_row "Stock Name (AIS)";
  name_c ← row_get cg_row "Stock Name (CG)";
  qty_a ← row_get ais_row "Quantity (AIS)";
  qty_c ← row_get cg_row "Quantity (CG)";
  sales_a ← row_get ais_row "Sales Value (AIS)";
  sales_c ← row_get cg_row "Sales Value (CG)";
  date_a ← row_get ais_row "Sale Date (AIS)";
  date_c ← row_get cg_row "Sale Date (CG)";
  Ok (MatchRecord mid ty
        [ ("Stock Name (AIS)", name_a); ("Stock Name (CG)", name_c);
          ("Quantity (AIS)", qty_a); ("Quantity (CG)", qty_c);
          ("Sales Value (AIS)", sales_a); ("Sales Value (CG)", sales_c);
          ("Sale Date (AIS)", date_a); ("Sale Date (CG)", date_c);
          ("Purchase Value (AIS)", cell_of ais_row "Purchase Value (AIS)");
          ("Purchase Value (CG)", cell_of cg_row "Purchase Value (CG)");
          ("Purchase Date (AIS)", cell_of ais_row "Purchase Date (AIS)");
          ("Purchase Date (CG)", cell_of cg_row "Purchase Date (CG)") ]
        [cell_of ais_row "ID"] [cell_of cg_row "ID"]).

(** [df[df['ID'] != r['ID']]] *)
Definition drop_id (df : frame) (r : row) : result frame :=
  _ ← frame_col df "ID";
  id ← row_get r "ID";
  Ok (frame_filter (fun x => negb (cell_eqb (cell_of x "ID") id)) df).

(** Append the record, shrink both pools, advance the counter. *)
Definition emit_pair (st : state) (ty : match_type) (ais_row cg_row : row)
  : result state :=
  rec ← pair_record (match_id st) ty ais_row cg_row;
  ua ← drop_id (unmatched_ais st) ais_row;
  uc ← drop_id (unmatched_cg st) cg_row;
  Ok (State ua uc (matches st ++ [rec]) (match_id st + 1)).

(** [for _, ais_row in unmatched_ais.iterrows(): ...] over the frame the
    name was bound to when the loop started. *)
Fixpoint for_rows (body : state -> row -> result state) (st : state) (rs : list row)
  : result state :=
  match rs with
  | [] => Ok st
  | r :: rs' => st' ← body st r; for_rows body st' rs'
  end.

(** [pd.Timedelta(days=1)] in nanoseconds. *)
Definition one_day : Z := 86400 * 1000000000.

(** [abs(cg_date - ais_date) <= pd.Timedelta(days=1)]; false on NaT. *)
Definition within_one_day (cg_date ais_date : cell) : bool :=
  match cg_date, ais_date with
  | Ts c, Ts a => Z.abs (c - a) <=? one_day
  | _, _ => false
  end.

(** The mask of lines 217-221, at one CG row. *)
Definition level1_mask (ais_row cg_row : row) : bool :=
  cell_eqb (cell_of cg_row "Stock Name Clean") (cell_of ais_row "Stock Name Clean")
  && cell_eqb (cell_of cg_row "Quantity (CG)") (cell_of ais_row "Quantity (AIS)")
  && within_one_day (cell_of cg_row "Sale Date (CG)") (cell_of ais_row "Sale Date (AIS)").

Definition level1_body (st : state) (ais_row : row) : result state :=
  sale_date ← row_get ais_row "Sale Date (AIS)";
  if isna sale_date then Ok st
  else
    _ ← frame_col (unmatched_cg st) "Stock Name Clean";
    _ ← row_get ais_row "Stock Name Clean";
    _ ← frame_col (unmatched_cg st) "Quantity (CG)";
    _ ← row_get ais_row "Quantity (AIS)";
    _ ← frame_col (unmatched_cg st) "Sale Date (CG)";
    match rows (frame_filter (level1_mask ais_row) (unmatched_cg st)) with
    | [] => Ok st
    | cg_row :: _ => emit_pair st Level1 ais_row cg_row
    end.

Definition level1 (st : state) : result state :=
  for_rows level1_body st (rows (unmatched_ais st)).

(** The mask of lines 254-257, at one CG row. *)
Definition level2_mask (ais_row cg_row : row) : bool :=
  cell_eqb (cell_of cg_row "Stock Name Clean") (cell_of ais_row "Stock Name Clean")
  && cell_eqb (cell_of cg_row "Quantity (CG)") (cell_of ais_row "Quantity (AIS)").

Definition level2_body (st : state) (ais_row : row) : result state :=
  _ ← frame_col (unmatched_cg st) "Stock Name Clean";
  _ ← row_get ais_row "Stock Name Clean";
  _ ← frame_col (unmatched_cg st) "Quantity (CG)";
  _ ← row_get ais_row "Quantity (AIS)";
  match rows (frame_filter (level2_mask ais_row) (unmatched_cg st)) with
  | [] => Ok st
  | cg_row :: _ => emit_pair st Level2 ais_row cg_row
  end.

Definition level2 (st : state) : result state :=
  for_rows level2_body st (rows (unmatched_ais st)).

(** [self.fuzzy_match_stocks] on two cells. The scorer is defined on
    strings; a missing name makes [len] raise. *)
Definition score_cells (name1 name2 : cell) : result Z :=
  match name1, name2 with
  | Str a, Str b => Ok (fuzzy_match_stocks token_set_ratio a b)
  | _, _ => Err TypeError
  end.

(** One turn of the inner loop of level 3 (lines 292-300) on
    [(best_match, best_score)]. *)
Definition level3_scan (ais_row : row) (best : option row * Z) (cg_row : row)
  : result (option row * Z) :=
  name_a ← row_get ais_row "Stock Name Clean";
  name_c ← row_get cg_row "Stock Name Clean";
  score ← score_cells name_a name_c;
  if 80 <? score then
    qty_c ← row_get cg_row "Quantity (CG)";
    qty_a ← row_get ais_row "Quantity (AIS)";
    if cell_eqb qty_c qty_a && (snd best <? score)
    then Ok (Some cg_row, score)
    else Ok best
  else Ok best.

Fixpoint level3_best (ais_row : row) (best : option row * Z) (cg_rows : list row)
  : result (option row * Z) :=
  match cg_rows with
  | [] => Ok best
  | cg_row :: rest =>
      best' ← level3_scan ais_row best cg_row;
      level3_best ais_row best' rest
  end.

Definition level3_body (st : state) (ais_row : row) : result state :=
  best ← level3_best ais_row (None, 0) (rows (unmatched_cg st));
  match fst best with
  | Some best_match => emit_pair st (Level3 (snd best)) ais_row best_match
  | None => Ok st
  end.

Definition level3 (st : state) : result state :=
  for_rows level3_body st (rows (unmatched_ais st)).

(** *** Aggregator (level 4) *)

(** Sorted insertion without repetition, for the group keys. *)
Fixpoint insert_key (k : string) (ks : list string) : list string :=
  match ks with
  | [] => [k]
  | k' :: ks' =>
      match String.compare k k' with
      | Lt => k :: ks
      | Eq => ks
      | Gt => k' :: insert_key k ks'
      end
  end.

(** The keys of [df.groupby('Stock Name Clean')]: the distinct names in
    sorted order; rows whose key is missing belong to no group. *)
Definition group_keys (df : frame) : list string :=
  fold_right (fun r ks => match cell_of r "Stock Name Clean" with
                          | Str s => insert_key s ks
                          | _ => ks
                          end) [] (rows df).

(** [groups.get_group(key)] *)
Definition get_group (df : frame) (key : string) : frame :=
  frame_filter (fun r => cell_eqb (cell_of r "Stock Name Clean") (Str key)) df.

(** The loop of lines 335-339 on [(cg_match_name, best_score)]. *)
Definition best_group (stock_name : string) (cg_keys : list string) : option string * Z :=
  fold_left (fun best cg_stock =>
               let score := fuzzy_match_stocks token_set_ratio stock_name cg_stock in
               if (85 <? score) && (snd best <? score)
               then (Some cg_stock, score) else best)
            cg_keys (None, 0).

(** [group[label].sum()] *)
Definition group_sum (group : frame) (label : string) : result Z :=
  cs ← frame_col group label; Ok (cells_sum cs).

(** [group.get(label, 0).sum()]: the default [0] is an integer and has
    no [sum]. *)
Definition group_get_sum (group : frame) (label : string) : result Z :=
  if has_column group label
  then Ok (cells_sum (map (fun r => cell_of r label) (rows group)))
  else Err AttributeError.

(** The dictionary built at lines 350-365. *)
Definition aggregate_record (mid : Z) (best_score : Z) (ais_group cg_group : frame)
    (ais_total_qty cg_total_qty : Z) : result match_record :=
  names_a ← frame_col ais_group "Stock Name (AIS)";
  name_a ← comma_join (unique names_a);
  names_c ← frame_col cg_group "Stock Name (CG)";
  name_c ← comma_join (unique names_c);
  sales_a ← group_sum ais_group "Sales Value (AIS)";
  sales_c ← group_sum cg_group "Sales Value (CG)";
  purchase_a ← group_get_sum ais_group "Purchase Value (AIS)";
  purchase_c ← group_get_sum cg_group "Purchase Value (CG)";
  Ok (MatchRecord mid (Level4 best_score)
        [ ("Stock Name (AIS)", name_a); ("Stock Name (CG)", name_c);
          ("Quantity (AIS)", Num ais_total_qty); ("Quantity (CG)", Num cg_total_qty);
          ("Sales Value (AIS)", Num sales_a); ("Sales Value (CG)", Num sales_c);
          ("Sale Date (AIS)", Str "Multiple"); ("Sale Date (CG)", Str "Multiple");
          ("Purchase Value (AIS)", Num purchase_a);
          ("Purchase Value (CG)", Num purchase_c);
          ("Purchase Date (AIS)", Str "Multiple");
          ("Purchase Date (CG)", Str "Multiple") ]
        (ids_of (rows ais_group)) (ids_of (rows cg_group))).

(** [df[~df['ID'].isin(group['ID'])]] *)
Definition drop_ids (df group : frame) : result frame :=
  _ ← frame_col df "ID";
  ids ← frame_col group "ID";
  Ok (frame_filter (fun x => negb (isin (cell_of x "ID") ids)) df).

(** The body of the loop of line 330 for one AIS group key. [ais_groups]
    and [cg_groups] are the frames grouped before the loop (lines 327-328);
    they stay what they were while [unmatched_ais] and [unmatched_cg] are
    rebound. *)
Definition level4_body (ais_groups cg_groups : frame) (st : state) (stock_name : string)
  : result state :=
  let ais_group := get_group ais_groups stock_name in
  let best := best_group stock_name (group_keys cg_groups) in
  match fst best with
  | None => Ok st
  | Some cg_match_name =>
      if String.eqb cg_match_name "" then Ok st
      else
        let cg_group := get_group cg_groups cg_match_name in
        ais_total_qty ← group_sum ais_group "Quantity (AIS)";
        cg_total_qty ← group_sum cg_group "Quantity (CG)";
        if (ais_total_qty =? cg_total_qty)%Z then
          rec ← aggregate_record (match_id st) (snd best) ais_group cg_group
                                 ais_total_qty cg_total_qty;
          ua ← drop_ids (unmatched_ais st) ais_group;
          uc ← drop_ids (unmatched_cg st) cg_group;
          Ok (State ua uc (matches st ++ [rec]) (match_id st + 1))
        else Ok st
  end.

Fixpoint for_groups (body : state -> string -> result state) (st : state)
    (keys : list string) : result state :=
  match keys with
  | [] => Ok st
  | k :: keys' => st' ← body st k; for_groups body st' keys'
  end.

Definition level4 (st : state) : result state :=
  _ ← frame_col (unmatched_ais st) "Stock Name Clean";
  _ ← frame_col (unmatched_cg st) "Stock Name Clean";
  for_groups (level4_body (unmatched_ais st) (unmatched_cg st)) st
             (group_keys (unmatched_ais st)).

(** The three tables [match_records] leaves on the engine. *)
Record output : Type := Output {
  mapped_data : list match_record;
  unmapped_ais : frame;
  unmapped_cg : frame
}.

(** Lines 195-210: the working copies and the empty result list. *)
Definition initial_state (ais_data cg_data : frame) : state :=
  let ais_df := frame_assign_scalar ais_data "Match ID" NA in
  let ais_df := frame_assign_scalar ais_df "Match Type" NA in
  let cg_df := frame_assign_scalar cg_data "Match ID" NA in
  let cg_df := frame_assign_scalar cg_df "Match Type" NA in
  State ais_df cg_df [] 1.

Definition cascade (st : state) : result state :=
  st1 ← level1 st;
  st2 ← level2 st1;
  st3 ← level3 st2;
  level4 st3.

Definition match_records (ais_data cg_data : frame) : result output :=
  st ← cascade (initial_state ais_data cg_data);
  ua ← frame_drop (unmatched_ais st) ["Stock Name Clean"; "ID"];
  uc ← frame_drop (unmatched_cg st) ["Stock Name Clean"; "ID"];
  Ok (Output (matches st) ua uc).

(** [load_data] then [match_records], as the caller runs them
    (lines 506-507). *)
Definition reconcile (ais_df cg_df : frame) : result output :=
  loaded ← load_data ais_df cg_df;
  match_records (fst loaded) (snd loaded).

End Engine.
(** The tiers as the specification words them. *)
Definition is_substring (s t : string) : Prop :=
  exists u v : string, t = u +:+ s +:+ v.

Definition shares_5gram (a b : string) : Prop :=
  exists s : string, String.length s = 5%nat /\ is_substring s a /\ is_substring s b.

Definition known_abbreviation (a b : string) : Prop :=
  exists key aliases, In (key, aliases) abbreviations /\
    ((a = key /\ In b aliases) \/ (b = key /\ In a aliases)).

Definition substring_tier (a b : string) : Prop :=
  (5 <= String.length a)%nat /\ (5 <= String.length b)%nat /\ shares_5gram a b.

(** A stand-in for the external scorer, to run the engine on concrete
    tables: 100 on equal names and 0 otherwise. *)
Definition identity_ratio (a b : string) : Z :=
  if String.eqb a b then 100 else 0.


(** ** Concrete tables *)

(** [pd.DataFrame(data, columns=labels)] *)
Definition table (labels : list string) (data : list (list cell)) : frame :=
  Frame labels (map (fun cs => list_to_map (zip labels cs)) data).

(** Stand-ins for the pandas coercions, for tables whose cells are parsed
    already: a timestamp stays, a number stays, anything else is missing. *)
Definition parsed_datetime (c : cell) : option Z :=
  match c with
  | Ts t => Some t
  | _ => None
  end.

Definition parsed_numeric (c : cell) : option Z :=
  match c with
  | Num z => Some z
  | _ => None
  end.

Definition run (ais_df cg_df : frame) : result output :=
  reconcile identity_ratio parsed_datetime parsed_numeric ais_df cg_df.

Definition ais_columns : list string :=
  ["Stock Name (AIS)"; "Quantity (AIS)"; "Sales Value (AIS)";
   "Sale Date (AIS)"; "Purchase Value (AIS)"; "Purchase Date (AIS)"].

Definition cg_columns : list string :=
  ["Stock Name (CG)"; "Quantity (CG)"; "Sales Value (CG)";
   "Sale Date (CG)"; "Purchase Value (CG)"; "Purchase Date (CG)"].

(** Midnight of day [d], in nanoseconds. *)
Definition day (d : Z) : cell := Ts (d * one_day).

(** The two frames [load_data] leaves on the engine, for tables it accepts. *)
Definition loaded (ais_df cg_df : frame) : frame * frame :=
  match load_data parsed_datetime parsed_numeric ais_df cg_df with
  | Ok p => p
  | Err _ => (Frame [] [], Frame [] [])
  end.

(** The state [match_records] starts its first loop in. *)
Definition start_state (ais_df cg_df : frame) : state :=
  initial_state (fst (loaded ais_df cg_df)) (snd (loaded ais_df cg_df)).

(** Two sales of XYZ at the broker, one and two days after the AIS date, and
    an AIS row without sale date. *)
Definition dated_ais : frame :=
  table ais_columns
    [ [Str "Xyz "; Num 7; Num 700; day 10; NA; NA];
      [Str "ABC"; Num 3; Num 300; NA; NA; NA] ].

Definition dated_cg : frame :=
  table cg_columns
    [ [Str "XYZ"; Num 7; Num 690; day 12; NA; NA];
      [Str "XYZ"; Num 7; Num 700; day 11; NA; NA] ].



(** Scenario B of the specification: two AIS lots against one broker lot. *)
Definition split_ais : frame :=
  table ais_columns
    [ [Str "TCS"; Num 5; Num 500; day 5; NA; NA];
      [Str "TCS"; Num 5; Num 500; day 6; NA; NA];
      [Str "WIPRO"; Num 4; Num 400; day 6; NA; NA] ].

Definition split_cg : frame :=
  table cg_columns
    [ [Str "TCS"; Num 10; Num 1000; day 5; NA; NA];
      [Str "WIPRO"; Num 3; Num 300; day 6; NA; NA] ].

(** Two AIS spellings of one stock, each in two lots, against one broker lot. *)
Definition twice_ais : frame :=
  table ais_columns
    [ [Str "INFOSYS LTD"; Num 5; Num 500; day 5; NA; NA];
      [Str "INFOSYS LTD"; Num 5; Num 500; day 6; NA; NA];
      [Str "INFOSYS LIMITED"; Num 3; Num 300; day 7; NA; NA];
      [Str "INFOSYS LIMITED"; Num 7; Num 700; day 8; NA; NA] ].

Definition twice_cg : frame :=
  table cg_columns [ [Str "INFOSYS"; Num 10; Num 1000; day 5; NA; NA] ].

(** Scenario B on an AIS table without the optional purchase-value column. *)
Definition no_purchase_ais : frame :=
  table ["Stock Name (AIS)"; "Quantity (AIS)"; "Sales Value (AIS)"; "Sale Date (AIS)"]
    [ [Str "TCS"; Num 5; Num 500; day 5];
      [Str "TCS"; Num 5; Num 500; day 6] ].

Definition no_purchase_cg : frame :=
  table cg_columns [ [Str "TCS"; Num 10; Num 1000; day 5; NA; NA] ].



(** The state level 4 leaves when it starts on scenario B. *)
Definition split_after_level4 : state :=
  match level4 identity_ratio (start_state split_ais split_cg) with
  | Ok st => st
  | Err _ => start_state split_ais split_cg
  end.

(** The dated example after [load_data]; its first AIS row and second CG row
    are one day apart. *)
Definition dated_loaded_ais : frame := fst (loaded dated_ais dated_cg).
Definition dated_loaded_cg : frame := snd (loaded dated_ais dated_cg).

Definition dated_output : output :=
  match match_records identity_ratio dated_loaded_ais dated_loaded_cg with
  | Ok out => out
  | Err _ => Output [] (Frame [] []) (Frame [] [])
  end.

(** One AIS lot equal to the broker lot, on the AIS table without the
    purchase-value column. *)
Definition no_purchase_pair_ais : frame :=
  table ["Stock Name (AIS)"; "Quantity (AIS)"; "Sales Value (AIS)"; "Sale Date (AIS)"]
    [ [Str "TCS"; Num 10; Num 1000; day 5] ].

(** What a run reports: per record its type, the ids it consumed on either
    side and its purchase-value cells, then the columns and the ids-free row
    count of the two residual tables. *)
Definition record_view (m : match_record)
  : match_type * list cell * list cell * list cell :=
  (mr_match_type m, mr_ais_ids m, mr_cg_ids m,
   map snd (List.filter (fun kv => String.eqb (fst kv) "Purchase Value (AIS)"
                                   || String.eqb (fst kv) "Purchase Value (CG)")
                        (mr_fields m))).

Definition run_view (r : result output)
  : result (list (match_type * list cell * list cell * list cell)
            * (list string * nat) * (list string * nat)) :=
  out ← r;
  Ok (map record_view (mapped_data out),
      (columns (unmapped_ais out), length (rows (unmapped_ais out))),
      (columns (unmapped_cg out), length (rows (unmapped_cg out)))).




(** What the whole run leaves on the dated example. *)
Definition dated_run_output : output :=
  match run dated_ais dated_cg with
  | Ok out => out
  | Err _ => Output [] (Frame [] []) (Frame [] [])
  end.

(** The state level 2 leaves when it starts on the dated example. *)
Definition dated_after_level2 : state :=
  match level2 (start_state dated_ais dated_cg) with
  | Ok st => st
  | Err _ => start_state dated_ais dated_cg
  end.


(** ** Vocabulary of the matcher properties *)

(** The sequence ids of a pool identify its rows: no two rows share one and
    none is missing. *)
Definition ids_ok (rs : list row) : Prop :=
  NoDup (ids_of rs) /\ Forall (fun r => cell_of r "ID" <> NA) rs.

#[global] Instance ids_ok_dec (rs : list row) : Decision (ids_ok rs).
Proof. unfold ids_ok. apply _. Defined.

(** Level 1's predicate on an AIS row and a CG row: identical normalized
    name, identical quantity, both sale dates present and at most one day
    apart. *)
Definition level1_pred (a c : row) : Prop :=
  cell_of c "Stock Name Clean" = cell_of a "Stock Name Clean" /\
  cell_of a "Stock Name Clean" <> NA /\
  cell_of c "Quantity (CG)" = cell_of a "Quantity (AIS)" /\
  cell_of a "Quantity (AIS)" <> NA /\
  exists ta tc, cell_of a "Sale Date (AIS)" = Ts ta /\
                cell_of c "Sale Date (CG)" = Ts tc /\
                Z.abs (tc - ta) <= one_day.

(** The state after AIS row [a] and CG row [c] were paired by a match of
    type [ty]: [a] is gone from the AIS pool, [c] from the CG pool
    ([cg_before ++ c :: cg_after] before), one record is appended. *)
Definition paired (ty : match_type) (a c : row) (cg_before cg_after : list row)
    (st st' : state) : Prop :=
  exists ais_before ais_after m,
    rows (unmatched_ais st) = ais_before ++ a :: ais_after /\
    rows (unmatched_ais st') = ais_before ++ ais_after /\
    rows (unmatched_cg st) = cg_before ++ c :: cg_after /\
    rows (unmatched_cg st') = cg_before ++ cg_after /\
    matches st' = matches st ++ [m] /\
    mr_match_id m = match_id st /\
    mr_match_type m = ty /\
    mr_ais_ids m = [cell_of a "ID"] /\
    mr_cg_ids m = [cell_of c "ID"] /\
    match_id st' = match_id st + 1.

(** A level that visits the AIS rows [rs] in order, one turn per row, each
    turn starting from the pools the turn before left. *)
Inductive pool_run (turn : row -> state -> state -> Prop)
  : list row -> state -> state -> Prop :=
| run_done (st : state) :
    pool_run turn [] st st
| run_turn (a : row) (rest : list row) (st st1 st' : state) :
    turn a st st1 ->
    pool_run turn rest st1 st' ->
    pool_run turn (a :: rest) st st'.

(** The turn of level 1 for AIS row [a], as the specification words it: a
    row without sale date is skipped; otherwise the first CG row of the pool
    that satisfies the predicate is paired with [a], if there is one. *)
Definition level1_turn (a : row) (st st' : state) : Prop :=
  (cell_of a "Sale Date (AIS)" = NA /\ st' = st) \/
  (cell_of a "Sale Date (AIS)" <> NA /\
   (forall c, In c (rows (unmatched_cg st)) -> ~ level1_pred a c) /\ st' = st) \/
  (cell_of a "Sale Date (AIS)" <> NA /\
   exists c cg_before cg_after,
     level1_pred a c /\
     (forall x, In x cg_before -> ~ level1_pred a x) /\
     paired Level1 a c cg_before cg_after st st').

(** CG row [c] is a level-3 candidate for AIS row [a], with score [s]:
    equal quantity and a name score strictly above 80. *)
Definition level3_candidate (token_set_ratio : string -> string -> Z)
    (a c : row) (s : Z) : Prop :=
  exists name_a name_c,
    cell_of a "Stock Name Clean" = Str name_a /\
    cell_of c "Stock Name Clean" = Str name_c /\
    s = fuzzy_match_stocks token_set_ratio name_a name_c /\
    80 < s /\
    cell_of c "Quantity (CG)" = cell_of a "Quantity (AIS)" /\
    cell_of a "Quantity (AIS)" <> NA.

(** What a level may do to the state: the pools keep their columns and only
    lose rows, and every record it appends has a type allowed by [P] and is
    built from rows of the pools the level started with. *)
Definition level_summary (P : match_type -> Prop) (st st' : state) : Prop :=
  columns (unmatched_ais st') = columns (unmatched_ais st) /\
  columns (unmatched_cg st') = columns (unmatched_cg st) /\
  incl (rows (unmatched_ais st')) (rows (unmatched_ais st)) /\
  incl (rows (unmatched_cg st')) (rows (unmatched_cg st)) /\
  exists new,
    matches st' = matches st ++ new /\
    forall m, In m new ->
      P (mr_match_type m) /\
      incl (mr_ais_ids m) (ids_of (rows (unmatched_ais st))) /\
      incl (mr_cg_ids m) (ids_of (rows (unmatched_cg st))).

Definition is_level2 (ty : match_type) : Prop := ty = Level2.
Definition is_level3 (ty : match_type) : Prop := exists s, ty = Level3 s.
Definition is_level4 (ty : match_type) : Prop := exists s, ty = Level4 s.

(** A turn of levels 1 to 3 leaves the state alone or pairs the AIS row with
    a row of the CG pool. *)
Definition pairs_or_skips (P : match_type -> Prop)
    (body : state -> row -> result state) : Prop :=
  forall st a st', body st a = Ok st' ->
    st' = st \/
    exists c ty, In c (rows (unmatched_cg st)) /\ P ty /\ emit_pair st ty a c = Ok st'.

(** [group[label].sum()] when the column is there. *)
Definition column_sum (label : string) (group : frame) : Z :=
  cells_sum (map (fun r => cell_of r label) (rows group)).

(** Whether the body of level 4 aggregates the AIS group [stock_name], and
    with which CG group and score. The answer depends on the grouped frames
    only, not on the pools as they shrink. *)
Definition level4_decision (token_set_ratio : string -> string -> Z)
    (ais_groups cg_groups : frame) (stock_name : string) : option (string * Z) :=
  let best := best_group token_set_ratio stock_name (group_keys cg_groups) in
  match fst best with
  | None => None
  | Some cg_match_name =>
      if String.eqb cg_match_name "" then None
      else if column_sum "Quantity (AIS)" (get_group ais_groups stock_name)
              =? column_sum "Quantity (CG)" (get_group cg_groups cg_match_name)
      then Some (cg_match_name, snd best)
      else None
  end.

(** The AIS group [ka] gets no aggregate: no CG group scores above 85
    against it, or the group selected has another summed quantity. *)
Definition no_aggregate (token_set_ratio : string -> string -> Z)
    (st : state) (ka : string) : Prop :=
  (forall kc, In kc (group_keys (unmatched_cg st)) ->
              fuzzy_match_stocks token_set_ratio ka kc <= 85) \/
  (exists kc,
      fst (best_group token_set_ratio ka (group_keys (unmatched_cg st))) = Some kc /\
      column_sum "Quantity (AIS)" (get_group (unmatched_ais st) ka)
      <> column_sum "Quantity (CG)" (get_group (unmatched_cg st) kc)).

(** A row of the working copies of lines 195-202: the two match columns
    are added, empty. *)
Definition add_match_columns (r : row) : row :=
  <["Match Type" := NA]> (<["Match ID" := NA]> r).

Definition not_level1 (ty : match_type) : Prop := ty <> Level1.


(** The columns the engine adds: the two of [load_data], the two of
    [match_records]. *)
Definition helper_columns : list string :=
  ["Stock Name Clean"; "ID"; "Match ID"; "Match Type"].


(** ** Vocabulary of the further properties *)

(** Level 2's predicate: identical normalized name and identical quantity,
    both present. *)
Definition level2_pred (a c : row) : Prop :=
  cell_of c "Stock Name Clean" = cell_of a "Stock Name Clean" /\
  cell_of a "Stock Name Clean" <> NA /\
  cell_of c "Quantity (CG)" = cell_of a "Quantity (AIS)" /\
  cell_of a "Quantity (AIS)" <> NA.

(** The turn of level 2 for AIS row [a]: the first CG row of the pool that
    satisfies the predicate is paired with [a], if there is one. *)
Definition level2_turn (a : row) (st st' : state) : Prop :=
  ((forall c, In c (rows (unmatched_cg st)) -> ~ level2_pred a c) /\ st' = st) \/
  (exists c cg_before cg_after,
     level2_pred a c /\
     (forall x, In x cg_before -> ~ level2_pred a x) /\
     paired Level2 a c cg_before cg_after st st').

(** The match ids of a list of records, in order. *)
Definition match_ids (ms : list match_record) : list Z := map mr_match_id ms.

(** [1, 2, ..., n] *)
Definition one_to (n : nat) : list Z := map Z.of_nat (seq 1 n).

(** The records so far are numbered 1, 2, ... in the order they were
    appended, and the counter holds the next number. *)
Definition numbered (st : state) : Prop :=
  match_ids (matches st) = one_to (length (matches st)) /\
  match_id st = Z.of_nat (length (matches st)) + 1.

(** A row of a residual table, from the row of the frame handed to
    [match_records]: the match columns added, the two helper columns
    dropped. *)
Definition residual_row (r : row) : row :=
  delete "Stock Name Clean" (delete "ID" (add_match_columns r)).

(** Both pools of [st'] are what is left of the pools of [st], in order. *)
Definition pools_shrink (st st' : state) : Prop :=
  sublist (rows (unmatched_ais st')) (rows (unmatched_ais st)) /\
  sublist (rows (unmatched_cg st')) (rows (unmatched_cg st)).


(** [record[label]] on an entry of [matches]; a label the dictionary lacks
    reads as missing. *)
Definition mr_field (m : match_record) (label : string) : cell :=
  match List.find (fun kv => String.eqb (fst kv) label) (mr_fields m) with
  | Some kv => snd kv
  | None => NA
  end.

(** The two quantities of a record are the same number. *)
Definition quantities_agree (m : match_record) : Prop :=
  mr_field m "Quantity (AIS)" = mr_field m "Quantity (CG)" /\
  mr_field m "Quantity (AIS)" <> NA.

(** The order of Python on strings: by code point, a proper prefix first. *)
Definition string_lt (a b : string) : Prop := String.compare a b = Lt.

(** The AIS ids the records of a match table were built from, record by
    record. *)
Definition consumed_ais (ms : list match_record) : list cell :=
  concat (map mr_ais_ids ms).

(** The AIS ids still in the pool together with those consumed so far. *)
Definition ais_ledger (st : state) : list cell :=
  ids_of (rows (unmatched_ais st)) ++ consumed_ais (matches st).

(** ** ReportBuilder: [create_stock_totals] *)











(** ** Facts about Python substrings *)

Lemma app_cons (c : ascii) (u v : string) : String c u +:+ v = String c (u +:+ v).
Proof. reflexivity. Qed.

Lemma app_nil (v : string) : EmptyString +:+ v = v.
Proof. reflexivity. Qed.

Lemma prefix_spec (p s : string) :
  String.prefix p s = true <-> exists v, s = p +:+ v.
Proof.
  revert s. induction p as [|c p IH]; intros s; simpl.
  - split; [intros _; exists s; reflexivity | intros _; destruct s; reflexivity].
  - destruct s as [|d s]; simpl.
    + split; [discriminate | intros [v Hv]; discriminate].
    + destruct (ascii_dec c d) as [->|Hne].
      * rewrite IH. split; intros [v Hv]; exists v; rewrite app_cons in *; congruence.
      * split; [discriminate | intros [v Hv]; rewrite app_cons in Hv; congruence].
Qed.

Lemma str_in_cons (p : string) (c : ascii) (s : string) :
  str_in p (String c s) = String.prefix p (String c s) || str_in p s.
Proof. reflexivity. Qed.

Lemma str_in_spec (p s : string) : str_in p s = true <-> is_substring p s.
Proof.
  unfold is_substring. induction s as [|c s IH].
  - change (str_in p EmptyString) with (String.prefix p EmptyString || false).
    rewrite orb_false_r, prefix_spec. split.
    + intros [v Hv]. exists EmptyString, v. exact Hv.
    + intros [u [v Hv]]. destruct u; [eauto | discriminate].
  - rewrite str_in_cons, orb_true_iff, prefix_spec, IH. split.
    + intros [[v Hv] | [u [v Hv]]].
      * exists EmptyString, v. exact Hv.
      * exists (String c u), v. rewrite app_cons. congruence.
    + intros [u [v Hv]]. destruct u as [|d u].
      * left. eauto.
      * right. exists u, v. rewrite app_cons in Hv. congruence.
Qed.

Lemma string_app_length (u v : string) :
  String.length (u +:+ v) = (String.length u + String.length v)%nat.
Proof. induction u as [|c u IH]; [reflexivity|]. rewrite app_cons. simpl. congruence. Qed.

Lemma substring_app_mid (u s v : string) :
  substring (String.length u) (String.length s) (u +:+ s +:+ v) = s.
Proof.
  induction u as [|c u IH].
  - rewrite app_nil. simpl. induction s as [|d s IHs].
    + rewrite app_nil. destruct v; reflexivity.
    + rewrite app_cons. simpl. f_equal. exact IHs.
  - rewrite app_cons. simpl. exact IH.
Qed.

Lemma substring_0_prefix (n : nat) (s : string) :
  (n <= String.length s)%nat -> exists v, s = substring 0 n s +:+ v.
Proof.
  revert s. induction n as [|n IH]; intros s Hle.
  - exists s. destruct s; reflexivity.
  - destruct s as [|c s]; simpl in Hle; [lia|].
    destruct (IH s) as [v Hv]; [lia|].
    exists v. simpl. rewrite app_cons. congruence.
Qed.

Lemma substring_is_substring (i n : nat) (s : string) :
  (i + n <= String.length s)%nat -> is_substring (substring i n s) s.
Proof.
  revert s. induction i as [|i IH]; intros s Hle.
  - destruct (substring_0_prefix n s) as [v Hv]; [lia|].
    exists EmptyString, v. exact Hv.
  - destruct s as [|c s]; simpl in Hle; [lia|].
    destruct (IH s) as [u [v Huv]]; [lia|].
    exists (String c u), v. rewrite app_cons. simpl. congruence.
Qed.

Lemma substring_length (i n : nat) (s : string) :
  (i + n <= String.length s)%nat -> String.length (substring i n s) = n.
Proof.
  revert i n. induction s as [|c s IH]; intros i n Hle; simpl in Hle.
  - assert (i = 0%nat) by lia. assert (n = 0%nat) by lia. subst. reflexivity.
  - destruct i as [|i]; simpl.
    + destruct n as [|n]; [reflexivity|]. simpl. rewrite IH; [reflexivity | simpl; lia].
    + apply IH. lia.
Qed.

Lemma common_substring_spec (a b : string) :
  common_substring a b = true <-> shares_5gram a b.
Proof.
  unfold common_substring, shares_5gram. rewrite existsb_exists. split.
  - intros [i [Hi Hin]]. apply in_seq in Hi.
    exists (substring i 5 a). split; [|split].
    + apply substring_length. lia.
    + apply substring_is_substring. lia.
    + apply str_in_spec. exact Hin.
  - intros [s [Hlen [[u [v Ha]] Hb]]].
    exists (String.length u). split.
    + apply in_seq. subst a. rewrite !string_app_length, Hlen. lia.
    + apply str_in_spec. rewrite <- Hlen at 1. subst a.
      rewrite substring_app_mid. exact Hb.
Qed.


Lemma shares_5gram_length (a b : string) :
  shares_5gram a b -> (5 <= String.length a)%nat /\ (5 <= String.length b)%nat.
Proof.
  intros [s [Hl [[u [v Ha]] [u' [v' Hb]]]]]. subst a b.
  rewrite !string_app_length, Hl. lia.
Qed.

Lemma str_in_list_spec (x : string) (values : list string) :
  str_in_list x values = true <-> In x values.
Proof.
  unfold str_in_list. rewrite existsb_exists. split.
  - intros [y [Hy Heq]]. apply String.eqb_eq in Heq. congruence.
  - intros Hin. exists x. split; [exact Hin | apply String.eqb_refl].
Qed.

Lemma abbreviation_hit_spec (a b : string) :
  abbreviation_hit a b = true <-> known_abbreviation a b.
Proof.
  unfold abbreviation_hit, known_abbreviation. rewrite existsb_exists. split.
  - intros [[key aliases] [Hin Hhit]]. simpl in Hhit.
    exists key, aliases. split; [exact Hin|].
    apply orb_true_iff in Hhit.
    destruct Hhit as [H|H]; apply andb_true_iff in H; destruct H as [H1 H2];
      apply String.eqb_eq in H1; apply str_in_list_spec in H2; auto.
  - intros [key [aliases [Hin Hhit]]]. exists (key, aliases). split; [exact Hin|].
    simpl. apply orb_true_iff.
    destruct Hhit as [[H1 H2]|[H1 H2]]; [left|right]; apply andb_true_iff;
      (split; [apply String.eqb_eq; exact H1 | apply str_in_list_spec; exact H2]).
Qed.



Lemma substring_tier_spec (a b : string) :
  (5 <=? String.length a)%nat && (5 <=? String.length b)%nat && common_substring a b = true
  <-> substring_tier a b.
Proof.
  unfold substring_tier.
  rewrite !andb_true_iff, !Nat.leb_le, common_substring_spec. tauto.
Qed.

(** ** Properties of the name scorer *)

(** C2: the score is an integer of [0,100] fixed by the first tier that
    applies, in the order equality (100), shared five-character window (90),
    abbreviation table (95), token-overlap fallback; a pair that passes both
    the window test and the abbreviation test scores 90. *)
Theorem fuzzy_match_stocks_tiers (token_set_ratio : string -> string -> Z) (a b : string) :
  (forall x y, 0 <= token_set_ratio x y <= 100) ->
  0 <= fuzzy_match_stocks token_set_ratio a b <= 100 /\
  (a = b -> fuzzy_match_stocks token_set_ratio a b = 100) /\
  (a <> b -> substring_tier a b -> fuzzy_match_stocks token_set_ratio a b = 90) /\
  (a <> b -> substring_tier a b -> known_abbreviation a b ->
     fuzzy_match_stocks token_set_ratio a b = 90) /\
  (a <> b -> ~ substring_tier a b -> known_abbreviation a b ->
     fuzzy_match_stocks token_set_ratio a b = 95) /\
  (a <> b -> ~ substring_tier a b -> ~ known_abbreviation a b ->
     fuzzy_match_stocks token_set_ratio a b = token_set_ratio a b).
Proof.
  intros Hrange. unfold fuzzy_match_stocks.
  destruct (String.eqb a b) eqn:Heq.
  { apply String.eqb_eq in Heq. repeat split; intros; try lia; congruence. }
  apply String.eqb_neq in Heq.
  destruct ((5 <=? String.length a)%nat && (5 <=? String.length b)%nat
            && common_substring a b) eqn:Hsub.
  { apply substring_tier_spec in Hsub.
    repeat split; intros; try lia; try reflexivity; contradiction. }
  assert (Hnsub : ~ substring_tier a b).
  { intros H. apply substring_tier_spec in H. congruence. }
  destruct (abbreviation_hit a b) eqn:Habb.
  { apply abbreviation_hit_spec in Habb.
    repeat split; intros; try lia; try reflexivity; contradiction. }
  assert (Hnabb : ~ known_abbreviation a b).
  { intros H. apply abbreviation_hit_spec in H. congruence. }
  specialize (Hrange a b).
  repeat split; intros; try lia; try reflexivity; contradiction.
Qed.

Lemma fuzzy_match_stocks_tiers_witness :
  0 <= fuzzy_match_stocks identity_ratio "RELIANCE" "RELIANCE IND" <= 100 /\
  fuzzy_match_stocks identity_ratio "RELIANCE" "RELIANCE IND" = 90.
Proof.
  assert (Hrange : forall x y, 0 <= identity_ratio x y <= 100).
  { intros x y. unfold identity_ratio. destruct (String.eqb x y); lia. }
  destruct (fuzzy_match_stocks_tiers identity_ratio "RELIANCE" "RELIANCE IND" Hrange)
    as [Hr _].
  split; [exact Hr | reflexivity].
Defined.



(** ** The error monad *)

Lemma bind_Ok {A B : Type} (m : result A) (k : A -> result B) (b : B) :
  m ≫= k = Ok b -> exists a, m = Ok a /\ k a = Ok b.
Proof. destruct m as [a|e]; simpl; [eauto | discriminate]. Qed.

Ltac inv_bind H :=
  let x := fresh "x" in
  let Hx := fresh "Hx" in
  apply bind_Ok in H; destruct H as [x [Hx H]].

(** ** Cells and frames *)

Lemma cell_eqb_spec (x y : cell) : cell_eqb x y = true <-> x = y /\ x <> NA.
Proof.
  destruct x, y; simpl; split; try discriminate; try (intros [H1 H2]; congruence).
  - intros H. apply Z.eqb_eq in H. split; congruence.
  - intros [H _]. apply Z.eqb_eq. congruence.
  - intros H. apply String.eqb_eq in H. split; congruence.
  - intros [H _]. apply String.eqb_eq. congruence.
  - intros H. apply Z.eqb_eq in H. split; congruence.
  - intros [H _]. apply Z.eqb_eq. congruence.
Qed.

Lemma cell_eqb_refl (x : cell) : x <> NA -> cell_eqb x x = true.
Proof. intros H. apply cell_eqb_spec. auto. Qed.

Lemma cell_eqb_neq (x y : cell) : x <> y -> cell_eqb x y = false.
Proof.
  intros H. destruct (cell_eqb x y) eqn:E; [|reflexivity].
  apply cell_eqb_spec in E. tauto.
Qed.

Lemma row_get_Ok (r : row) (label : string) (c : cell) :
  row_get r label = Ok c -> r !! label = Some c /\ cell_of r label = c.
Proof.
  unfold row_get, cell_of. destruct (r !! label); intros H; inversion H; auto.
Qed.

Lemma frame_col_Ok (df : frame) (label : string) (cs : list cell) :
  frame_col df label = Ok cs ->
  has_column df label = true /\ cs = map (fun r => cell_of r label) (rows df).
Proof.
  unfold frame_col. destruct (has_column df label); intros H; inversion H; auto.
Qed.

Lemma filter_keeps_ids_nodup (f : row -> bool) (rs : list row) :
  NoDup (ids_of rs) -> NoDup (ids_of (List.filter f rs)).
Proof.
  unfold ids_of. induction rs as [|r rs IH]; simpl; intros Hnd; [constructor|].
  apply NoDup_cons in Hnd. destruct Hnd as [Hnotin Hnd].
  destruct (f r); simpl; [|auto].
  apply NoDup_cons. split; [|auto].
  intros Hin. apply Hnotin.
  apply list_elem_of_In in Hin. apply list_elem_of_In.
  apply in_map_iff in Hin. destruct Hin as [x [Hx Hin]].
  apply filter_In in Hin. apply in_map_iff. exists x. tauto.
Qed.

Lemma filter_keeps_ids_ok (f : row -> bool) (rs : list row) :
  ids_ok rs -> ids_ok (List.filter f rs).
Proof.
  intros [Hnd Hna]. split; [apply filter_keeps_ids_nodup; exact Hnd|].
  apply List.Forall_forall. intros x Hx. apply filter_In in Hx.
  rewrite List.Forall_forall in Hna. apply Hna. tauto.
Qed.

Lemma filter_all {A : Type} (f : A -> bool) (rs : list A) :
  (forall x, In x rs -> f x = true) -> List.filter f rs = rs.
Proof.
  induction rs as [|r rs IH]; simpl; intros H; [reflexivity|].
  rewrite (H r) by (left; reflexivity). f_equal. apply IH. intros x Hx. apply H. right. exact Hx.
Qed.

(** Filtering a pool on "id differs from the id of [c]" removes [c] and
    nothing else. *)
Lemma filter_out_id (before after : list row) (c : row) :
  ids_ok (before ++ c :: after) ->
  List.filter (fun x => negb (cell_eqb (cell_of x "ID") (cell_of c "ID")))
              (before ++ c :: after) = before ++ after.
Proof.
  intros [Hnd Hna]. rewrite List.Forall_forall in Hna.
  assert (Hkeep : forall x, In x (before ++ after) ->
            negb (cell_eqb (cell_of x "ID") (cell_of c "ID")) = true).
  { intros x Hx. apply negb_true_iff, cell_eqb_neq. intros Heq.
    unfold ids_of in Hnd. rewrite map_app in Hnd. simpl in Hnd.
    apply NoDup_app in Hnd. destruct Hnd as [_ [Hdisj Hnd]].
    apply NoDup_cons in Hnd. destruct Hnd as [Hc _].
    apply in_app_or in Hx. destruct Hx as [Hx|Hx].
    - apply (Hdisj (cell_of x "ID")).
      + apply list_elem_of_In, in_map_iff. eauto.
      + rewrite Heq. apply list_elem_of_In. left. reflexivity.
    - apply Hc. rewrite <- Heq. apply list_elem_of_In, in_map_iff. eauto. }
  rewrite List.filter_app. simpl.
  rewrite cell_eqb_refl by (apply Hna; apply in_or_app; right; left; reflexivity).
  simpl. f_equal; apply filter_all; intros x Hx; apply Hkeep; apply in_or_app; auto.
Qed.

Lemma filter_first (f : row -> bool) (rs : list row) (c : row) (rest : list row) :
  List.filter f rs = c :: rest ->
  exists before after, rs = before ++ c :: after /\ f c = true /\
                       forall x, In x before -> f x = false.
Proof.
  induction rs as [|r rs IH]; simpl; [discriminate|].
  destruct (f r) eqn:Hr.
  - intros H. inversion H; subst. exists [], rs. simpl. tauto.
  - intros H. destruct (IH H) as [before [after [Hrs [Hc Hb]]]].
    exists (r :: before), after. subst rs. simpl. split; [reflexivity|].
    split; [exact Hc|]. intros x [Hx|Hx]; [congruence | auto].
Qed.

Lemma filter_none (f : row -> bool) (rs : list row) :
  List.filter f rs = [] -> forall x, In x rs -> f x = false.
Proof.
  intros H x Hx. destruct (f x) eqn:Hfx; [|reflexivity].
  assert (Hin : In x (List.filter f rs)) by (apply filter_In; auto).
  rewrite H in Hin. destruct Hin.
Qed.

Lemma drop_id_Ok (df df' : frame) (r : row) :
  drop_id df r = Ok df' ->
  df' = frame_filter (fun x => negb (cell_eqb (cell_of x "ID") (cell_of r "ID"))) df.
Proof.
  unfold drop_id. intros H. inv_bind H. inv_bind H.
  apply row_get_Ok in Hx0. destruct Hx0 as [_ Hid]. rewrite Hid.
  inversion H. reflexivity.
Qed.

Lemma pair_record_Ok (mid : Z) (ty : match_type) (a c : row) (m : match_record) :
  pair_record mid ty a c = Ok m ->
  mr_match_id m = mid /\ mr_match_type m = ty /\
  mr_ais_ids m = [cell_of a "ID"] /\ mr_cg_ids m = [cell_of c "ID"].
Proof.
  unfold pair_record. intros H. do 8 inv_bind H. inversion H. simpl. tauto.
Qed.

Lemma emit_pair_Ok (st st' : state) (ty : match_type) (a c : row) :
  emit_pair st ty a c = Ok st' ->
  exists m,
    mr_match_id m = match_id st /\ mr_match_type m = ty /\
    mr_ais_ids m = [cell_of a "ID"] /\ mr_cg_ids m = [cell_of c "ID"] /\
    st' = State
            (frame_filter (fun x => negb (cell_eqb (cell_of x "ID") (cell_of a "ID")))
                          (unmatched_ais st))
            (frame_filter (fun x => negb (cell_eqb (cell_of x "ID") (cell_of c "ID")))
                          (unmatched_cg st))
            (matches st ++ [m]) (match_id st + 1).
Proof.
  unfold emit_pair. intros H. do 3 inv_bind H.
  apply pair_record_Ok in Hx. apply drop_id_Ok in Hx0. apply drop_id_Ok in Hx1.
  exists x. inversion H. subst. tauto.
Qed.

Lemma emit_pair_paired (st st' : state) (ty : match_type) (a c : row)
      (cg_before cg_after : list row) :
  ids_ok (rows (unmatched_ais st)) ->
  ids_ok (rows (unmatched_cg st)) ->
  In a (rows (unmatched_ais st)) ->
  rows (unmatched_cg st) = cg_before ++ c :: cg_after ->
  emit_pair st ty a c = Ok st' ->
  paired ty a c cg_before cg_after st st'.
Proof.
  intros Hais Hcg Hin Hsplit H.
  apply emit_pair_Ok in H. destruct H as [m [Hid [Hty [Ha [Hc Hst]]]]].
  apply in_split in Hin. destruct Hin as [ais_before [ais_after Hsa]].
  exists ais_before, ais_after, m. subst st'. simpl.
  rewrite Hsa in Hais. rewrite Hsplit in Hcg.
  rewrite Hsa at 2. rewrite Hsplit at 2.
  rewrite (filter_out_id _ _ _ Hais), (filter_out_id _ _ _ Hcg). tauto.
Qed.

Lemma within_one_day_spec (x y : cell) :
  within_one_day x y = true <->
  exists ta tc, y = Ts ta /\ x = Ts tc /\ Z.abs (tc - ta) <= one_day.
Proof.
  unfold within_one_day. split.
  - destruct x, y; try discriminate. intros H. apply Z.leb_le in H. eauto.
  - intros [ta [tc [-> [-> H]]]]. apply Z.leb_le. exact H.
Qed.

Lemma level1_mask_spec (a c : row) : level1_mask a c = true <-> level1_pred a c.
Proof.
  unfold level1_mask, level1_pred.
  rewrite !andb_true_iff, !cell_eqb_spec, within_one_day_spec.
  split.
  - intros [[[H1 H2] [H3 H4]] H5]. repeat split; congruence || exact H5.
  - intros [H1 [H2 [H3 [H4 H5]]]]. repeat split; congruence || exact H5.
Qed.

Lemma isna_spec (c : cell) : isna c = true <-> c = NA.
Proof. destruct c; simpl; split; congruence. Qed.

(** One turn of level 1. *)
Lemma level1_body_cases (st st' : state) (a : row) :
  level1_body st a = Ok st' ->
  (cell_of a "Sale Date (AIS)" = NA /\ st' = st) \/
  (cell_of a "Sale Date (AIS)" <> NA /\
   (forall c, In c (rows (unmatched_cg st)) -> ~ level1_pred a c) /\ st' = st) \/
  (cell_of a "Sale Date (AIS)" <> NA /\
   exists c cg_before cg_after,
     rows (unmatched_cg st) = cg_before ++ c :: cg_after /\
     level1_pred a c /\
     (forall x, In x cg_before -> ~ level1_pred a x) /\
     emit_pair st Level1 a c = Ok st').
Proof.
  unfold level1_body. intros H. inv_bind H.
  apply row_get_Ok in Hx. destruct Hx as [_ Hdate]. subst x.
  destruct (isna (cell_of a "Sale Date (AIS)")) eqn:Hna.
  { left. apply isna_spec in Hna. injection H as Hst. auto. }
  assert (Hpresent : cell_of a "Sale Date (AIS)" <> NA).
  { intros Heq. apply isna_spec in Heq. congruence. }
  right. do 5 inv_bind H. simpl in H.
  destruct (List.filter (level1_mask a) (rows (unmatched_cg st))) as [|c rest] eqn:Hf.
  - left. injection H as Hst. subst st'. split; [exact Hpresent|]. split; [|reflexivity].
    intros c Hc Hp. apply level1_mask_spec in Hp.
    rewrite (filter_none _ _ Hf c Hc) in Hp. discriminate.
  - right. split; [exact Hpresent|].
    apply filter_first in Hf. destruct Hf as [before [after [Hs [Hc Hb]]]].
    exists c, before, after. split; [exact Hs|].
    split; [apply level1_mask_spec; exact Hc|]. split; [|exact H].
    intros y Hy Hp. apply level1_mask_spec in Hp. rewrite (Hb y Hy) in Hp. discriminate.
Qed.

Lemma paired_ids_ok (ty : match_type) (a c : row) (cg_before cg_after : list row)
      (st st' : state) :
  emit_pair st ty a c = Ok st' ->
  ids_ok (rows (unmatched_ais st)) -> ids_ok (rows (unmatched_cg st)) ->
  ids_ok (rows (unmatched_ais st')) /\ ids_ok (rows (unmatched_cg st')).
Proof.
  intros H Ha Hc. apply emit_pair_Ok in H. destruct H as [m [_ [_ [_ [_ Hst]]]]].
  subst st'. simpl. split; apply filter_keeps_ids_ok; assumption.
Qed.

Lemma level1_body_turn (st st' : state) (a : row) :
  ids_ok (rows (unmatched_ais st)) ->
  ids_ok (rows (unmatched_cg st)) ->
  In a (rows (unmatched_ais st)) ->
  level1_body st a = Ok st' ->
  level1_turn a st st'.
Proof.
  intros Hais Hcg Ha H.
  destruct (level1_body_cases _ _ _ H) as [Hskip|[Hmiss|[Hp Hhit]]].
  - left. exact Hskip.
  - right. left. exact Hmiss.
  - right. right. split; [exact Hp|].
    destruct Hhit as [c [before [after [Hs [Hpred [Hfirst Hemit]]]]]].
    exists c, before, after. split; [exact Hpred|]. split; [exact Hfirst|].
    eapply emit_pair_paired; eassumption.
Qed.

(** ** Level 3: the best-scored candidate *)

Section Level3.

Variable token_set_ratio : string -> string -> Z.

Lemma level3_candidate_score (a c : row) (s s' : Z) :
  level3_candidate token_set_ratio a c s ->
  level3_candidate token_set_ratio a c s' -> s = s'.
Proof.
  intros [na [nc [Ha [Hc [Hs _]]]]] [na' [nc' [Ha' [Hc' [Hs' _]]]]].
  congruence.
Qed.

Lemma level3_scan_cases (a x : row) (best best' : option row * Z) :
  level3_scan token_set_ratio a best x = Ok best' ->
  (best' = best /\
   forall sx, level3_candidate token_set_ratio a x sx -> sx <= snd best) \/
  (exists s, best' = (Some x, s) /\
             level3_candidate token_set_ratio a x s /\ snd best < s).
Proof.
  unfold level3_scan. intros H. do 3 inv_bind H.
  apply row_get_Ok in Hx, Hx0. destruct Hx as [_ Hna], Hx0 as [_ Hnx].
  unfold score_cells in Hx1.
  destruct x0 as [| |name_a|]; try discriminate.
  destruct x1 as [| |name_c|]; try discriminate.
  injection Hx1 as Hscore.
  assert (Hunique : forall sx, level3_candidate token_set_ratio a x sx -> sx = x2).
  { intros sx [na [nc [Ha [Hc [Hs _]]]]]. congruence. }
  destruct (80 <? x2) eqn:H80.
  - do 2 inv_bind H. apply row_get_Ok in Hx, Hx0.
    destruct Hx as [_ Hqx], Hx0 as [_ Hqa]. subst x0 x1.
    destruct (cell_eqb (cell_of x "Quantity (CG)") (cell_of a "Quantity (AIS)")
              && (snd best <? x2)) eqn:Hcond.
    + right. exists x2. injection H as Hb. apply andb_true_iff in Hcond.
      destruct Hcond as [Hq Hlt]. apply cell_eqb_spec in Hq. apply Z.ltb_lt in Hlt.
      apply Z.ltb_lt in H80. split; [auto|]. split; [|exact Hlt].
      exists name_a, name_c. destruct Hq as [Hq1 Hq2].
      repeat split; try assumption; try congruence.
    + left. injection H as Hb. split; [auto|]. intros sx Hcand.
      rewrite (Hunique sx Hcand).
      apply andb_false_iff in Hcond. destruct Hcond as [Hq|Hlt].
      * destruct Hcand as [na [nc [_ [_ [_ [_ [Hq1 Hq2]]]]]]].
        assert (Ht : cell_eqb (cell_of x "Quantity (CG)") (cell_of a "Quantity (AIS)") = true).
        { apply cell_eqb_spec. split; congruence. }
        congruence.
      * apply Z.ltb_ge in Hlt. exact Hlt.
  - left. injection H as Hb. split; [auto|]. intros sx Hcand.
    pose proof (Hunique sx Hcand) as Hsx. subst sx.
    destruct Hcand as [na [nc [_ [_ [_ [Hgt _]]]]]].
    apply Z.ltb_ge in H80. lia.
Qed.

Lemma level3_best_cases (a : row) (cg_rows : list row) (best best' : option row * Z) :
  level3_best token_set_ratio a best cg_rows = Ok best' ->
  (best' = best /\
   forall x sx, In x cg_rows -> level3_candidate token_set_ratio a x sx ->
                sx <= snd best) \/
  (exists c before after,
      cg_rows = before ++ c :: after /\
      fst best' = Some c /\
      level3_candidate token_set_ratio a c (snd best') /\
      snd best < snd best' /\
      (forall x sx, In x before -> level3_candidate token_set_ratio a x sx ->
                    sx < snd best') /\
      (forall x sx, In x after -> level3_candidate token_set_ratio a x sx ->
                    sx <= snd best')).
Proof.
  revert best. induction cg_rows as [|x rest IH]; intros best H; simpl in H.
  - left. injection H as Hb. split; [auto|]. intros y sy [].
  - inv_bind H. rename x0 into best1.
    destruct (level3_scan_cases _ _ _ _ Hx) as [[Hsame Hle]|[s [Hnew [Hcand Hlt]]]];
      destruct (IH _ H) as [[Hsame' Hle']|[c [before [after [Hs [Hf [Hc [Hlt' [Hb Ha]]]]]]]]].
    + left. subst. split; [reflexivity|]. intros y sy [Hy|Hy] Hcy.
      * subst y. auto.
      * eauto.
    + right. subst best1. exists c, (x :: before), after. subst rest.
      split; [reflexivity|]. split; [exact Hf|]. split; [exact Hc|].
      split; [exact Hlt'|]. split; [|exact Ha].
      intros y sy [Hy|Hy] Hcy.
      * subst y. specialize (Hle sy Hcy). lia.
      * eauto.
    + right. subst best1 best'. exists x, [], rest. simpl.
      split; [reflexivity|]. split; [reflexivity|]. split; [exact Hcand|].
      split; [exact Hlt|]. split; [intros y sy []|]. exact Hle'.
    + right. subst best1. simpl in Hlt'. exists c, (x :: before), after. subst rest.
      split; [reflexivity|]. split; [exact Hf|]. split; [exact Hc|].
      split; [lia|]. split; [|exact Ha].
      intros y sy [Hy|Hy] Hcy.
      * subst y. rewrite (level3_candidate_score _ _ _ _ Hcy Hcand). exact Hlt'.
      * eauto.
Qed.

Lemma level3_body_cases (st st' : state) (a : row) :
  level3_body token_set_ratio st a = Ok st' ->
  ((forall c s, In c (rows (unmatched_cg st)) ->
                ~ level3_candidate token_set_ratio a c s) /\ st' = st) \/
  (exists c s cg_before cg_after,
      rows (unmatched_cg st) = cg_before ++ c :: cg_after /\
      level3_candidate token_set_ratio a c s /\
      (forall x sx, In x cg_before -> level3_candidate token_set_ratio a x sx -> sx < s) /\
      (forall x sx, In x cg_after -> level3_candidate token_set_ratio a x sx -> sx <= s) /\
      emit_pair st (Level3 s) a c = Ok st').
Proof.
  unfold level3_body. intros H. inv_bind H. rename x into best.
  destruct (level3_best_cases _ _ _ _ Hx)
    as [[Hsame Hle]|[c [before [after [Hs [Hf [Hc [Hlt [Hb Ha]]]]]]]]].
  - left. subst best. simpl in H. injection H as Hst. split; [|auto].
    intros c s Hin Hcand. specialize (Hle c s Hin Hcand). simpl in Hle.
    destruct Hcand as [na [nc [_ [_ [_ [Hgt _]]]]]]. lia.
  - right. rewrite Hf in H. exists c, (snd best), before, after. tauto.
Qed.

End Level3.

(** ** What every level preserves *)

Lemma ids_of_incl (rs rs' : list row) : incl rs rs' -> incl (ids_of rs) (ids_of rs').
Proof.
  intros H i Hi. unfold ids_of in *. apply in_map_iff in Hi.
  destruct Hi as [r [Hr Hin]]. apply in_map_iff. eauto.
Qed.

Lemma filter_incl (f : row -> bool) (rs : list row) : incl (List.filter f rs) rs.
Proof. intros r Hr. apply filter_In in Hr. tauto. Qed.

Lemma level_summary_refl (P : match_type -> Prop) (st : state) : level_summary P st st.
Proof.
  repeat split; try apply incl_refl. exists []. split; [symmetry; apply app_nil_r|].
  intros m [].
Qed.

Lemma level_summary_trans (P Q : match_type -> Prop) (st st1 st2 : state) :
  level_summary P st st1 -> level_summary Q st1 st2 ->
  level_summary (fun ty => P ty \/ Q ty) st st2.
Proof.
  intros [Hc1 [Hc2 [Hi1 [Hi2 [new1 [Hm1 Hn1]]]]]] [Hc3 [Hc4 [Hi3 [Hi4 [new2 [Hm2 Hn2]]]]]].
  split; [congruence|]. split; [congruence|].
  split; [eapply incl_tran; eassumption|]. split; [eapply incl_tran; eassumption|].
  exists (new1 ++ new2). split; [rewrite Hm2, Hm1; symmetry; apply app_assoc|].
  intros m Hm. apply in_app_or in Hm. destruct Hm as [Hm|Hm].
  - destruct (Hn1 m Hm) as [HP [Ha Hc]]. auto.
  - destruct (Hn2 m Hm) as [HQ [Ha Hc]]. split; [auto|].
    split; (eapply incl_tran; [eassumption | apply ids_of_incl; assumption]).
Qed.

Lemma level_summary_weaken (P Q : match_type -> Prop) (st st' : state) :
  (forall ty, P ty -> Q ty) -> level_summary P st st' -> level_summary Q st st'.
Proof.
  intros HPQ [Hc1 [Hc2 [Hi1 [Hi2 [new [Hm Hn]]]]]].
  repeat split; try assumption. exists new. split; [exact Hm|].
  intros m Hin. destruct (Hn m Hin) as [HP [Ha Hc]]. auto.
Qed.

Lemma for_rows_summary (P : match_type -> Prop) (body : state -> row -> result state)
      (rs : list row) (st st' : state) :
  pairs_or_skips P body ->
  for_rows body st rs = Ok st' ->
  columns (unmatched_ais st') = columns (unmatched_ais st) /\
  columns (unmatched_cg st') = columns (unmatched_cg st) /\
  incl (rows (unmatched_ais st')) (rows (unmatched_ais st)) /\
  incl (rows (unmatched_cg st')) (rows (unmatched_cg st)) /\
  exists new,
    matches st' = matches st ++ new /\
    forall m, In m new ->
      P (mr_match_type m) /\
      incl (mr_ais_ids m) (ids_of rs) /\
      incl (mr_cg_ids m) (ids_of (rows (unmatched_cg st))).
Proof.
  intros Hbody. revert st. induction rs as [|a rest IH]; intros st H; simpl in H.
  - injection H as Hst. subst st'. repeat split; try apply incl_refl.
    exists []. split; [symmetry; apply app_nil_r | intros m []].
  - inv_bind H. rename x into st1.
    destruct (IH _ H) as [Hc1 [Hc2 [Hi1 [Hi2 [new [Hm Hn]]]]]].
    destruct (Hbody _ _ _ Hx) as [->|[c [ty [Hc [HP Hemit]]]]].
    + repeat split; try assumption. exists new. split; [exact Hm|].
      intros m Hin. destruct (Hn m Hin) as [HPm [Ha Hcg]].
      split; [exact HPm|]. split; [|exact Hcg].
      eapply incl_tran; [exact Ha|]. intros i Hi. right. exact Hi.
    + apply emit_pair_Ok in Hemit.
      destruct Hemit as [m0 [Hid [Hty [Ha0 [Hc0 Hst1]]]]]. subst st1. simpl in *.
      split; [exact Hc1|]. split; [exact Hc2|].
      split; [eapply incl_tran; [exact Hi1 | apply filter_incl]|].
      split; [eapply incl_tran; [exact Hi2 | apply filter_incl]|].
      exists (m0 :: new). split; [rewrite Hm, <- app_assoc; reflexivity|].
      intros m [Hm0|Hin].
      * subst m. split; [rewrite Hty; exact HP|]. rewrite Ha0, Hc0. split.
        -- intros i [Hi|[]]. subst i. left. reflexivity.
        -- intros i [Hi|[]]. subst i. unfold ids_of. apply in_map_iff. eauto.
      * destruct (Hn m Hin) as [HPm [Ha Hcg]]. split; [exact HPm|]. split.
        -- eapply incl_tran; [exact Ha|]. intros i Hi. right. exact Hi.
        -- eapply incl_tran; [exact Hcg|]. apply ids_of_incl, filter_incl.
Qed.

Lemma level1_pairs_or_skips : pairs_or_skips (fun ty => ty = Level1) level1_body.
Proof.
  intros st a st' H.
  destruct (level1_body_cases _ _ _ H) as [[_ ->]|[[_ [_ ->]]|[_ Hhit]]]; [auto..|].
  destruct Hhit as [c [before [after [Hs [_ [_ Hemit]]]]]].
  right. exists c, Level1. split; [|auto].
  rewrite Hs. apply in_or_app. right. left. reflexivity.
Qed.

Lemma level2_mask_spec (a c : row) :
  level2_mask a c = true <->
  cell_of c "Stock Name Clean" = cell_of a "Stock Name Clean" /\
  cell_of a "Stock Name Clean" <> NA /\
  cell_of c "Quantity (CG)" = cell_of a "Quantity (AIS)" /\
  cell_of a "Quantity (AIS)" <> NA.
Proof.
  unfold level2_mask. rewrite andb_true_iff, !cell_eqb_spec.
  split.
  - intros [[H1 H2] [H3 H4]]. repeat split; congruence.
  - intros [H1 [H2 [H3 H4]]]. repeat split; congruence.
Qed.

Lemma level2_body_cases (st st' : state) (a : row) :
  level2_body st a = Ok st' ->
  ((forall c, In c (rows (unmatched_cg st)) -> level2_mask a c = false) /\ st' = st) \/
  (exists c cg_before cg_after,
     rows (unmatched_cg st) = cg_before ++ c :: cg_after /\
     level2_mask a c = true /\
     (forall x, In x cg_before -> level2_mask a x = false) /\
     emit_pair st Level2 a c = Ok st').
Proof.
  unfold level2_body. intros H. do 4 inv_bind H. simpl in H.
  destruct (List.filter (level2_mask a) (rows (unmatched_cg st))) as [|c rest] eqn:Hf.
  - left. injection H as Hst. split; [|auto]. apply filter_none. exact Hf.
  - right. apply filter_first in Hf. destruct Hf as [before [after [Hs [Hc Hb]]]].
    exists c, before, after. tauto.
Qed.

Lemma level2_pairs_or_skips : pairs_or_skips is_level2 level2_body.
Proof.
  intros st a st' H.
  destruct (level2_body_cases _ _ _ H) as [[_ ->]|[c [before [after [Hs [_ [_ Hemit]]]]]]];
    [auto|].
  right. exists c, Level2. split; [|split; [reflexivity | exact Hemit]].
  rewrite Hs. apply in_or_app. right. left. reflexivity.
Qed.

Lemma level3_pairs_or_skips (token_set_ratio : string -> string -> Z) :
  pairs_or_skips is_level3 (level3_body token_set_ratio).
Proof.
  intros st a st' H.
  destruct (level3_body_cases _ _ _ _ H)
    as [[_ ->]|[c [s [before [after [Hs [_ [_ [_ Hemit]]]]]]]]]; [auto|].
  right. exists c, (Level3 s). split; [|split; [exists s; reflexivity | exact Hemit]].
  rewrite Hs. apply in_or_app. right. left. reflexivity.
Qed.

(** The loop of a level visits every row of the pool it started with while
    that row is still in the pool. *)
Lemma for_rows_pool_run (P : match_type -> Prop) (body : state -> row -> result state)
      (turn : row -> state -> state -> Prop) (rs : list row) (st st' : state) :
  pairs_or_skips P body ->
  (forall st a st',
      ids_ok (rows (unmatched_ais st)) -> ids_ok (rows (unmatched_cg st)) ->
      In a (rows (unmatched_ais st)) -> body st a = Ok st' -> turn a st st') ->
  ids_ok (rows (unmatched_ais st)) ->
  ids_ok (rows (unmatched_cg st)) ->
  NoDup (ids_of rs) ->
  incl rs (rows (unmatched_ais st)) ->
  for_rows body st rs = Ok st' ->
  pool_run turn rs st st'.
Proof.
  intros Hpairs Hturn. revert st.
  induction rs as [|a rest IH]; intros st Hais Hcg Hnd Hincl H; simpl in H.
  - injection H as Hst. subst st'. constructor.
  - inv_bind H. rename x into st1.
    assert (Ha : In a (rows (unmatched_ais st))) by (apply Hincl; left; reflexivity).
    assert (Hrest : incl rest (rows (unmatched_ais st))).
    { intros r Hr. apply Hincl. right. exact Hr. }
    unfold ids_of in Hnd. simpl in Hnd. apply NoDup_cons in Hnd.
    destruct Hnd as [Hnotin Hnd].
    apply run_turn with (st1 := st1); [apply Hturn; assumption|].
    destruct (Hpairs _ _ _ Hx) as [->|[c [ty [_ [_ Hemit]]]]].
    + apply IH; assumption.
    + destruct (paired_ids_ok _ _ _ [] [] _ _ Hemit Hais Hcg) as [Hais1 Hcg1].
      apply IH; try assumption.
      apply emit_pair_Ok in Hemit. destruct Hemit as [m [_ [_ [_ [_ Hst]]]]].
      subst st1. simpl. intros r Hr. apply filter_In. split; [apply Hrest; exact Hr|].
      apply negb_true_iff, cell_eqb_neq. intros Heq. apply Hnotin.
      rewrite <- Heq. apply list_elem_of_In, in_map_iff. eauto.
Qed.


Lemma level_of_for_rows (P : match_type -> Prop) (body : state -> row -> result state)
      (st st' : state) :
  pairs_or_skips P body ->
  for_rows body st (rows (unmatched_ais st)) = Ok st' ->
  level_summary P st st'.
Proof. intros Hb H. exact (for_rows_summary P body _ st st' Hb H). Qed.


(** ** Level 4: whole groups *)

Lemma isin_spec (x : cell) (values : list cell) : isin x values = true <-> In x values.
Proof.
  unfold isin. rewrite bool_decide_eq_true. apply list_elem_of_In.
Qed.

Lemma group_sum_Ok (group : frame) (label : string) (z : Z) :
  group_sum group label = Ok z -> z = column_sum label group.
Proof.
  unfold group_sum. intros H. inv_bind H. apply frame_col_Ok in Hx.
  destruct Hx as [_ ->]. injection H as Hz. auto.
Qed.

Lemma drop_ids_Ok (df df' group : frame) :
  drop_ids df group = Ok df' ->
  df' = frame_filter (fun x => negb (isin (cell_of x "ID") (ids_of (rows group)))) df.
Proof.
  unfold drop_ids. intros H. do 2 inv_bind H. apply frame_col_Ok in Hx0.
  destruct Hx0 as [_ ->]. injection H as Hdf. auto.
Qed.

Lemma aggregate_record_Ok (mid s : Z) (ais_group cg_group : frame) (qa qc : Z)
      (m : match_record) :
  aggregate_record mid s ais_group cg_group qa qc = Ok m ->
  mr_match_id m = mid /\ mr_match_type m = Level4 s /\
  mr_ais_ids m = ids_of (rows ais_group) /\ mr_cg_ids m = ids_of (rows cg_group).
Proof.
  unfold aggregate_record. intros H. do 8 inv_bind H. injection H as Hm.
  subst m. simpl. tauto.
Qed.

Section Level4.

Variable token_set_ratio : string -> string -> Z.
Variables ais_groups cg_groups : frame.

Lemma level4_body_cases (st st' : state) (k : string) :
  level4_body token_set_ratio ais_groups cg_groups st k = Ok st' ->
  (level4_decision token_set_ratio ais_groups cg_groups k = None /\ st' = st) \/
  (exists kc s m,
      level4_decision token_set_ratio ais_groups cg_groups k = Some (kc, s) /\
      mr_match_id m = match_id st /\
      mr_match_type m = Level4 s /\
      mr_ais_ids m = ids_of (rows (get_group ais_groups k)) /\
      mr_cg_ids m = ids_of (rows (get_group cg_groups kc)) /\
      st' = State
              (frame_filter
                 (fun x => negb (isin (cell_of x "ID")
                                      (ids_of (rows (get_group ais_groups k)))))
                 (unmatched_ais st))
              (frame_filter
                 (fun x => negb (isin (cell_of x "ID")
                                      (ids_of (rows (get_group cg_groups kc)))))
                 (unmatched_cg st))
              (matches st ++ [m]) (match_id st + 1)).
Proof.
  unfold level4_body, level4_decision. intros H.
  destruct (fst (best_group token_set_ratio k (group_keys cg_groups))) as [kc|] eqn:Hbest.
  2:{ left. injection H as Hst. auto. }
  destruct (String.eqb kc "") eqn:Hempty.
  { left. injection H as Hst. auto. }
  do 2 inv_bind H. apply group_sum_Ok in Hx, Hx0. subst x x0.
  destruct (column_sum "Quantity (AIS)" (get_group ais_groups k)
            =? column_sum "Quantity (CG)" (get_group cg_groups kc)) eqn:Hsum.
  2:{ left. injection H as Hst. auto. }
  right. do 3 inv_bind H. apply aggregate_record_Ok in Hx.
  apply drop_ids_Ok in Hx0, Hx1. injection H as Hst.
  exists kc, (snd (best_group token_set_ratio k (group_keys cg_groups))), x.
  subst. tauto.
Qed.

Lemma for_groups_level4 (ks : list string) (st st' : state) :
  for_groups (level4_body token_set_ratio ais_groups cg_groups) st ks = Ok st' ->
  columns (unmatched_ais st') = columns (unmatched_ais st) /\
  columns (unmatched_cg st') = columns (unmatched_cg st) /\
  incl (rows (unmatched_ais st')) (rows (unmatched_ais st)) /\
  incl (rows (unmatched_cg st')) (rows (unmatched_cg st)) /\
  (exists new,
      matches st' = matches st ++ new /\
      forall m, In m new ->
        exists k kc s,
          In k ks /\
          level4_decision token_set_ratio ais_groups cg_groups k = Some (kc, s) /\
          mr_match_type m = Level4 s /\
          mr_ais_ids m = ids_of (rows (get_group ais_groups k)) /\
          mr_cg_ids m = ids_of (rows (get_group cg_groups kc)) /\
          (forall r, In r (rows (unmatched_ais st')) ->
                     ~ In (cell_of r "ID") (mr_ais_ids m)) /\
          (forall r, In r (rows (unmatched_cg st')) ->
                     ~ In (cell_of r "ID") (mr_cg_ids m))) /\
  (forall r, In r (rows (unmatched_ais st)) ->
     (forall k, In k ks ->
        level4_decision token_set_ratio ais_groups cg_groups k <> None ->
        ~ In (cell_of r "ID") (ids_of (rows (get_group ais_groups k)))) ->
     In r (rows (unmatched_ais st'))).
Proof.
  revert st. induction ks as [|k rest IH]; intros st H; simpl in H.
  - injection H as Hst. subst st'. repeat split; try apply incl_refl.
    + exists []. split; [symmetry; apply app_nil_r | intros m []].
    + auto.
  - inv_bind H. rename x into st1.
    destruct (IH _ H) as [Hc1 [Hc2 [Hi1 [Hi2 [[new [Hm Hn]] Hkeep]]]]].
    destruct (level4_body_cases _ _ _ Hx)
      as [[Hdec ->]|[kc [s [m0 [Hdec [Hid [Hty [Ha0 [Hc0 Hst1]]]]]]]]].
    + repeat split; try assumption.
      * exists new. split; [exact Hm|]. intros m Hin.
        destruct (Hn m Hin) as [k' [kc' [s' [Hk' Hrest]]]].
        exists k', kc', s'. split; [right; exact Hk' | exact Hrest].
      * intros r Hr Hfree. apply Hkeep; [exact Hr|].
        intros k' Hk'. apply Hfree. right. exact Hk'.
    + subst st1.
      cbn [unmatched_ais unmatched_cg matches match_id frame_filter rows columns] in *.
      split; [exact Hc1|]. split; [exact Hc2|].
      split; [eapply incl_tran; [exact Hi1 | apply filter_incl]|].
      split; [eapply incl_tran; [exact Hi2 | apply filter_incl]|].
      split.
      * exists (m0 :: new). split; [rewrite Hm, <- app_assoc; reflexivity|].
        intros m [Hm0|Hin].
        -- subst m. exists k, kc, s. split; [left; reflexivity|].
           split; [exact Hdec|]. split; [exact Hty|]. split; [exact Ha0|].
           split; [exact Hc0|]. rewrite Ha0, Hc0. split.
           ++ intros r Hr Hid'. apply Hi1 in Hr. apply filter_In in Hr.
              destruct Hr as [_ Hr]. apply negb_true_iff in Hr.
              apply isin_spec in Hid'. congruence.
           ++ intros r Hr Hid'. apply Hi2 in Hr. apply filter_In in Hr.
              destruct Hr as [_ Hr]. apply negb_true_iff in Hr.
              apply isin_spec in Hid'. congruence.
        -- destruct (Hn m Hin) as [k' [kc' [s' [Hk' Hrest]]]].
           exists k', kc', s'. split; [right; exact Hk' | exact Hrest].
      * intros r Hr Hfree. apply Hkeep.
        -- apply filter_In. split; [exact Hr|]. apply negb_true_iff.
           destruct (isin (cell_of r "ID") (ids_of (rows (get_group ais_groups k))))
             eqn:Hisin; [|reflexivity].
           apply isin_spec in Hisin. exfalso.
           apply (Hfree k); [left; reflexivity | congruence | exact Hisin].
        -- intros k' Hk'. apply Hfree. right. exact Hk'.
Qed.

Lemma best_group_below (k : string) (keys : list string) (best : option string * Z) :
  (forall kc, In kc keys -> fuzzy_match_stocks token_set_ratio k kc <= 85) ->
  fold_left (fun best cg_stock =>
               let score := fuzzy_match_stocks token_set_ratio k cg_stock in
               if (85 <? score) && (snd best <? score)
               then (Some cg_stock, score) else best)
            keys best = best.
Proof.
  revert best. induction keys as [|kc rest IH]; intros best Hle; simpl; [reflexivity|].
  assert (H85 : (85 <? fuzzy_match_stocks token_set_ratio k kc) = false).
  { apply Z.ltb_ge. apply Hle. left. reflexivity. }
  rewrite H85. simpl. apply IH. intros kc' Hin. apply Hle. right. exact Hin.
Qed.

End Level4.

Lemma no_aggregate_decision (token_set_ratio : string -> string -> Z)
      (st : state) (ka : string) :
  no_aggregate token_set_ratio st ka ->
  level4_decision token_set_ratio (unmatched_ais st) (unmatched_cg st) ka = None.
Proof.
  unfold level4_decision. intros [Hlow|[kc [Hbest Hsum]]].
  - unfold best_group. rewrite best_group_below by exact Hlow. reflexivity.
  - rewrite Hbest. destruct (String.eqb kc ""); [reflexivity|].
    apply Z.eqb_neq in Hsum. rewrite Hsum. reflexivity.
Qed.

Lemma same_id_same_row (rs : list row) (r r' : row) :
  NoDup (ids_of rs) -> In r rs -> In r' rs ->
  cell_of r "ID" = cell_of r' "ID" -> r = r'.
Proof.
  unfold ids_of. induction rs as [|x rs IH]; intros Hnd Hr Hr' Heq; [destruct Hr|].
  simpl in Hnd. apply NoDup_cons in Hnd. destruct Hnd as [Hx Hnd].
  destruct Hr as [Hr|Hr], Hr' as [Hr'|Hr'].
  - congruence.
  - subst x. exfalso. apply Hx. rewrite Heq. apply list_elem_of_In, in_map_iff. eauto.
  - subst x. exfalso. apply Hx. rewrite <- Heq. apply list_elem_of_In, in_map_iff. eauto.
  - auto.
Qed.

Lemma get_group_In (df : frame) (key : string) (r : row) :
  In r (rows (get_group df key)) <->
  In r (rows df) /\ cell_of r "Stock Name Clean" = Str key.
Proof.
  unfold get_group, frame_filter. simpl. rewrite filter_In, cell_eqb_spec.
  split; [tauto|]. intros [H1 H2]. repeat split; try assumption. congruence.
Qed.

Lemma level4_summary (token_set_ratio : string -> string -> Z) (st st' : state) :
  level4 token_set_ratio st = Ok st' -> level_summary is_level4 st st'.
Proof.
  unfold level4. intros H. do 2 inv_bind H.
  destruct (for_groups_level4 _ _ _ _ _ _ H) as [Hc1 [Hc2 [Hi1 [Hi2 [[new [Hm Hn]] _]]]]].
  repeat split; try assumption. exists new. split; [exact Hm|].
  intros m Hin. destruct (Hn m Hin) as [k [kc [s [_ [_ [Hty [Ha [Hc _]]]]]]]].
  split; [exists s; exact Hty|]. rewrite Ha, Hc.
  split; apply ids_of_incl; intros r Hr; apply get_group_In in Hr; tauto.
Qed.

(** ** The working copies and the cascade *)

Lemma frame_assign_scalar_rows (df : frame) (label : string) (v : cell) :
  rows (frame_assign_scalar df label v) = map (fun r => <[label := v]> r) (rows df).
Proof.
  unfold frame_assign_scalar, frame_assign. simpl.
  induction (rows df) as [|r rs IH]; simpl; [reflexivity|]. f_equal. exact IH.
Qed.

Lemma initial_state_rows (ais_data cg_data : frame) :
  rows (unmatched_ais (initial_state ais_data cg_data))
  = map add_match_columns (rows ais_data) /\
  rows (unmatched_cg (initial_state ais_data cg_data))
  = map add_match_columns (rows cg_data).
Proof.
  unfold initial_state. cbn [unmatched_ais unmatched_cg].
  rewrite !frame_assign_scalar_rows, !map_map. split; reflexivity.
Qed.

Lemma cell_of_insert_ne (r : row) (l l' : string) (v : cell) :
  l <> l' -> cell_of (<[l := v]> r) l' = cell_of r l'.
Proof. intros H. unfold cell_of. rewrite lookup_insert_ne by exact H. reflexivity. Qed.

Lemma cell_of_add_match_columns (r : row) (l : string) :
  l <> "Match ID" -> l <> "Match Type" -> cell_of (add_match_columns r) l = cell_of r l.
Proof.
  intros H1 H2. unfold add_match_columns.
  rewrite !cell_of_insert_ne by congruence. reflexivity.
Qed.

Lemma ids_of_add_match_columns (rs : list row) :
  ids_of (map add_match_columns rs) = ids_of rs.
Proof.
  unfold ids_of. rewrite map_map. apply map_ext. intros r.
  apply cell_of_add_match_columns; discriminate.
Qed.


Lemma ids_ok_add_match_columns (rs : list row) :
  ids_ok rs -> ids_ok (map add_match_columns rs).
Proof.
  intros [Hnd Hna]. split; [rewrite ids_of_add_match_columns; exact Hnd|].
  apply List.Forall_forall. intros r Hr. apply in_map_iff in Hr.
  destruct Hr as [r0 [<- Hr0]]. rewrite cell_of_add_match_columns by discriminate.
  rewrite List.Forall_forall in Hna. auto.
Qed.

Lemma cascade_summary (token_set_ratio : string -> string -> Z) (st st' : state) :
  cascade token_set_ratio st = Ok st' ->
  exists st1,
    level1 st = Ok st1 /\
    level_summary (fun ty => ty = Level1) st st1 /\
    level_summary not_level1 st1 st'.
Proof.
  unfold cascade. intros H. do 3 inv_bind H.
  rename x into st1, x0 into st2, x1 into st3.
  exists st1. split; [exact Hx|].
  split; [apply level_of_for_rows with (body := level1_body);
          [apply level1_pairs_or_skips | exact Hx]|].
  assert (H2 : level_summary is_level2 st1 st2).
  { apply level_of_for_rows with (body := level2_body);
      [apply level2_pairs_or_skips | exact Hx0]. }
  assert (H3 : level_summary is_level3 st2 st3).
  { apply level_of_for_rows with (body := level3_body token_set_ratio);
      [apply level3_pairs_or_skips | exact Hx1]. }
  assert (H4 : level_summary is_level4 st3 st') by (eapply level4_summary; exact H).
  pose proof (level_summary_trans _ _ _ _ _ (level_summary_trans _ _ _ _ _ H2 H3) H4) as Hall.
  eapply level_summary_weaken; [|exact Hall].
  intros ty [[Hty|[s Hty]]|[s Hty]]; unfold not_level1; rewrite Hty; discriminate.
Qed.

Lemma match_records_Ok (token_set_ratio : string -> string -> Z)
      (ais_data cg_data : frame) (out : output) :
  match_records token_set_ratio ais_data cg_data = Ok out ->
  exists st,
    cascade token_set_ratio (initial_state ais_data cg_data) = Ok st /\
    mapped_data out = matches st /\
    frame_drop (unmatched_ais st) ["Stock Name Clean"; "ID"] = Ok (unmapped_ais out) /\
    frame_drop (unmatched_cg st) ["Stock Name Clean"; "ID"] = Ok (unmapped_cg out).
Proof.
  unfold match_records. intros H. do 3 inv_bind H. injection H as Hout.
  exists x. subst out. simpl. tauto.
Qed.

(** ** Columns through [load_data] and [match_records] *)

Lemma str_in_list_app (x : string) (l1 l2 : list string) :
  str_in_list x (l1 ++ l2) = str_in_list x l1 || str_in_list x l2.
Proof. unfold str_in_list. apply existsb_app. Qed.


Lemma columns_convert_column (f : cell -> cell) (df : frame) (l : string) :
  columns (convert_column f df l) = columns df.
Proof.
  unfold convert_column. destruct (has_column df l) eqn:Hl; [|reflexivity].
  unfold frame_assign. simpl. rewrite Hl. reflexivity.
Qed.

Lemma columns_convert_columns (f : cell -> cell) (ls : list string) (df : frame) :
  columns (fold_left (convert_column f) ls df) = columns df.
Proof.
  revert df. induction ls as [|l ls IH]; intros df; simpl; [reflexivity|].
  rewrite IH. apply columns_convert_column.
Qed.

Lemma columns_assign_new (df : frame) (l : string) (vs : list cell) :
  has_column df l = false -> columns (frame_assign df l vs) = columns df ++ [l].
Proof. intros H. unfold frame_assign. simpl. rewrite H. reflexivity. Qed.


Lemma has_column_app (df df' : frame) (ls : list string) (l : string) :
  columns df' = columns df ++ ls ->
  has_column df' l = has_column df l || str_in_list l ls.
Proof. unfold has_column. intros ->. apply str_in_list_app. Qed.

Section Columns.

Variable token_set_ratio : string -> string -> Z.
Variable to_datetime : cell -> option Z.
Variable to_numeric : cell -> option Z.

Lemma load_data_Ok (ais_df cg_df ais_data cg_data : frame) :
load_data to_datetime to_numeric ais_df cg_df = Ok (ais_data, cg_data) ->
has_column ais_df "Stock Name (AIS)" = true /\
has_column cg_df "Stock Name (CG)" = true /\
exists ais1 cg1,
  columns ais1 = columns (frame_assign ais_df "Stock Name Clean" []) /\
  columns cg1 = columns (frame_assign cg_df "Stock Name Clean" []) /\
  ais_data = frame_assign ais1 "ID" (id_range (length (rows ais1))) /\
  cg_data = frame_assign cg1 "ID" (id_range (length (rows cg1))).
Proof.
unfold load_data. intros H. do 2 inv_bind H.
apply frame_col_Ok in Hx, Hx0. destruct Hx as [Ha _], Hx0 as [Hc _].
split; [exact Ha|]. split; [exact Hc|].
match type of H with
| Ok (frame_assign ?a _ _, frame_assign ?c _ _) = _ => exists a, c
end.
assert (Hp : forall (p q : frame * frame), Ok p = Ok q -> p = q)
  by (intros p q E; congruence).
apply Hp in H.
apply (f_equal fst) in H as H1. apply (f_equal snd) in H as H2.
cbn [fst snd] in H1, H2.
split; [|split; [|split]].
3: symmetry; exact H1.
3: symmetry; exact H2.
- rewrite !columns_convert_columns. reflexivity.
- rewrite !columns_convert_columns. reflexivity.
Qed.

Lemma load_data_columns (ais_df cg_df ais_data cg_data : frame) :
  Forall (fun l => has_column ais_df l = false) helper_columns ->
  Forall (fun l => has_column cg_df l = false) helper_columns ->
  load_data to_datetime to_numeric ais_df cg_df = Ok (ais_data, cg_data) ->
  columns ais_data = columns ais_df ++ ["Stock Name Clean"; "ID"] /\
  columns cg_data = columns cg_df ++ ["Stock Name Clean"; "ID"].
Proof.
  intros Ha Hc H. apply load_data_Ok in H.
  destruct H as [_ [_ [ais1 [cg1 [Hc1 [Hc2 [-> ->]]]]]]].
  unfold helper_columns in Ha, Hc.
  apply Forall_cons in Ha. destruct Ha as [Ha1 Ha].
  apply Forall_cons in Ha. destruct Ha as [Ha2 _].
  apply Forall_cons in Hc. destruct Hc as [Hc1' Hc].
  apply Forall_cons in Hc. destruct Hc as [Hc2' _].
  rewrite (columns_assign_new _ _ _ Ha1) in Hc1.
  rewrite (columns_assign_new _ _ _ Hc1') in Hc2.
  split.
  - rewrite columns_assign_new.
    + rewrite Hc1, <- app_assoc. reflexivity.
    + rewrite (has_column_app ais_df ais1 ["Stock Name Clean"] "ID" Hc1), Ha2.
      reflexivity.
  - rewrite columns_assign_new.
    + rewrite Hc2, <- app_assoc. reflexivity.
    + rewrite (has_column_app cg_df cg1 ["Stock Name Clean"] "ID" Hc2), Hc2'.
      reflexivity.
Qed.

End Columns.

Lemma initial_state_columns (ais_data cg_data : frame) (cols_a cols_c : list string) :
  Forall (fun l => str_in_list l cols_a = false) helper_columns ->
  Forall (fun l => str_in_list l cols_c = false) helper_columns ->
  columns ais_data = cols_a ++ ["Stock Name Clean"; "ID"] ->
  columns cg_data = cols_c ++ ["Stock Name Clean"; "ID"] ->
  columns (unmatched_ais (initial_state ais_data cg_data))
  = cols_a ++ ["Stock Name Clean"; "ID"; "Match ID"; "Match Type"] /\
  columns (unmatched_cg (initial_state ais_data cg_data))
  = cols_c ++ ["Stock Name Clean"; "ID"; "Match ID"; "Match Type"].
Proof.
  intros Ha Hc Hca Hcc. unfold helper_columns in Ha, Hc.
  apply Forall_cons in Ha. destruct Ha as [_ Ha].
  apply Forall_cons in Ha. destruct Ha as [_ Ha].
  apply Forall_cons in Ha. destruct Ha as [Ha3 Ha].
  apply Forall_cons in Ha. destruct Ha as [Ha4 _].
  apply Forall_cons in Hc. destruct Hc as [_ Hc].
  apply Forall_cons in Hc. destruct Hc as [_ Hc].
  apply Forall_cons in Hc. destruct Hc as [Hc3 Hc].
  apply Forall_cons in Hc. destruct Hc as [Hc4 _].
  unfold initial_state, frame_assign_scalar, frame_assign, has_column. simpl.
  rewrite Hca, Hcc, !str_in_list_app, Ha3, Hc3. simpl.
  rewrite !str_in_list_app, Ha4, Hc4. simpl.
  rewrite <- !app_assoc. simpl. split; reflexivity.
Qed.

Lemma frame_drop_Ok (df df' : frame) (labels : list string) :
  frame_drop df labels = Ok df' ->
  columns df' = List.filter (fun c => negb (str_in_list c labels)) (columns df) /\
  rows df' = map (fun r => foldr delete r labels) (rows df).
Proof.
  unfold frame_drop. destruct (find _ labels); [discriminate|].
  intros H. injection H as Hdf. subst df'. simpl. auto.
Qed.

Lemma filter_helper_free (cols : list string) :
  Forall (fun l => str_in_list l cols = false) helper_columns ->
  List.filter (fun c => negb (str_in_list c ["Stock Name Clean"; "ID"])) cols = cols.
Proof.
  intros H. unfold helper_columns in H.
  apply Forall_cons in H. destruct H as [H1 H].
  apply Forall_cons in H. destruct H as [H2 _].
  apply filter_all. intros c Hc. apply negb_true_iff.
  destruct (str_in_list c ["Stock Name Clean"; "ID"]) eqn:Hin; [|reflexivity].
  apply str_in_list_spec in Hin. apply str_in_list_spec in Hc.
  destruct Hin as [<-|[<-|[]]]; congruence.
Qed.

Lemma reconcile_Ok (token_set_ratio : string -> string -> Z)
      (to_datetime to_numeric : cell -> option Z) (ais_df cg_df : frame) (out : output) :
  reconcile token_set_ratio to_datetime to_numeric ais_df cg_df = Ok out ->
  exists ais_data cg_data,
    load_data to_datetime to_numeric ais_df cg_df = Ok (ais_data, cg_data) /\
    match_records token_set_ratio ais_data cg_data = Ok out.
Proof.
  unfold reconcile. intros H. inv_bind H. destruct x as [ais_data cg_data].
  exists ais_data, cg_data. auto.
Qed.

Lemma cascade_columns (token_set_ratio : string -> string -> Z) (st st' : state) :
  cascade token_set_ratio st = Ok st' ->
  columns (unmatched_ais st') = columns (unmatched_ais st) /\
  columns (unmatched_cg st') = columns (unmatched_cg st).
Proof.
  intros H. destruct (cascade_summary _ _ _ H) as [st1 [_ [H1 H4]]].
  destruct H1 as [Ha1 [Hc1 _]]. destruct H4 as [Ha4 [Hc4 _]].
  split; congruence.
Qed.

Lemma dropped_columns (cols : list string) (df df' : frame) :
  Forall (fun l => str_in_list l cols = false) helper_columns ->
  columns df = cols ++ ["Stock Name Clean"; "ID"; "Match ID"; "Match Type"] ->
  frame_drop df ["Stock Name Clean"; "ID"] = Ok df' ->
  columns df' = cols ++ ["Match ID"; "Match Type"] /\
  Forall (fun r : row => r !! "Stock Name Clean" = None /\ r !! "ID" = None) (rows df').
Proof.
  intros Hfree Hcols H. apply frame_drop_Ok in H. destruct H as [Hc Hr]. split.
  - rewrite Hc, Hcols, List.filter_app, (filter_helper_free _ Hfree). reflexivity.
  - rewrite Hr. apply List.Forall_forall. intros r Hin. apply in_map_iff in Hin.
    destruct Hin as [r0 [<- _]]. simpl. split.
    + apply lookup_delete_eq.
    + rewrite lookup_delete_ne by discriminate. apply lookup_delete_eq.
Qed.

(** ** A column that is not there *)







Lemma length_id_range (n : nat) : length (id_range n) = n.
Proof. unfold id_range. rewrite length_map. apply length_seq. Qed.


Section MissingColumn.

Variable token_set_ratio : string -> string -> Z.
Variable to_datetime : cell -> option Z.
Variable to_numeric : cell -> option Z.





End MissingColumn.

(** ** The sequence ids of [load_data] *)

Lemma ids_of_assign_id (rs : list row) (ids : list cell) :
  length ids = length rs ->
  ids_of (zip_with (fun r v => <["ID" := v]> r) rs ids) = ids.
Proof.
  unfold ids_of. revert ids.
  induction rs as [|r rs IH]; intros ids H; destruct ids as [|i ids];
    simpl in *; try congruence.
  unfold cell_of at 1. rewrite lookup_insert_eq. simpl. f_equal. apply IH. congruence.
Qed.

Lemma id_range_ok (n : nat) :
  NoDup (id_range n) /\ Forall (fun c => c <> NA) (id_range n).
Proof.
  unfold id_range. split.
  - apply NoDup_fmap_2; [|apply NoDup_seq].
    intros i j H. injection H as H. lia.
  - apply List.Forall_forall. intros c Hc. apply in_map_iff in Hc.
    destruct Hc as [i [<- _]]. discriminate.
Qed.

Lemma assign_id_ids_ok (df : frame) :
  ids_ok (rows (frame_assign df "ID" (id_range (length (rows df))))).
Proof.
  unfold frame_assign. simpl.
  assert (Hids := ids_of_assign_id (rows df) (id_range (length (rows df)))
                    (length_id_range _)).
  destruct (id_range_ok (length (rows df))) as [Hnd Hna].
  split; [rewrite Hids; exact Hnd|].
  apply List.Forall_forall. intros r Hr.
  assert (Hin : In (cell_of r "ID") (id_range (length (rows df)))).
  { rewrite <- Hids. unfold ids_of. apply in_map_iff. eauto. }
  rewrite List.Forall_forall in Hna. auto.
Qed.

(** The frames [load_data] returns carry distinct, present sequence ids. *)
Lemma load_data_ids_ok (to_datetime to_numeric : cell -> option Z)
      (ais_df cg_df ais_data cg_data : frame) :
  load_data to_datetime to_numeric ais_df cg_df = Ok (ais_data, cg_data) ->
  ids_ok (rows ais_data) /\ ids_ok (rows cg_data).
Proof.
  intros H. apply load_data_Ok in H.
  destruct H as [_ [_ [ais1 [cg1 [_ [_ [-> ->]]]]]]].
  split; apply assign_id_ids_ok.
Qed.

(** ** The four levels *)

(** C3: level 1 visits the unmatched AIS rows in pool order; it skips a row
    without sale date; for any other row it takes the first CG row of the
    pool with the same normalized name, the same quantity and a sale date
    at most one day away, appends one level-1 record and removes exactly
    these two rows from the pools before the next AIS row is visited. *)
Theorem level1_first_found (st st' : state) :
  ids_ok (rows (unmatched_ais st)) ->
  ids_ok (rows (unmatched_cg st)) ->
  level1 st = Ok st' ->
  pool_run level1_turn (rows (unmatched_ais st)) st st'.
Proof.
  intros Hais Hcg H.
  apply for_rows_pool_run with (P := fun ty => ty = Level1) (body := level1_body).
  - apply level1_pairs_or_skips.
  - intros s a s'. apply level1_body_turn.
  - exact Hais.
  - exact Hcg.
  - apply Hais.
  - apply incl_refl.
  - exact H.
Qed.

Lemma level1_first_found_witness :
  exists st',
    level1 (start_state dated_ais dated_cg) = Ok st' /\
    pool_run level1_turn
             (rows (unmatched_ais (start_state dated_ais dated_cg)))
             (start_state dated_ais dated_cg) st'.
Proof.
  eexists. split.
  - vm_compute. reflexivity.
  - apply level1_first_found.
    + apply (bool_decide_unpack _). vm_compute. exact I.
    + apply (bool_decide_unpack _). vm_compute. exact I.
    + vm_compute. reflexivity.
Defined.



(** C5: every record level 4 appends is built from one whole AIS name group
    and one whole CG name group of the pools level 4 started with, and no row
    of either group is left in the pools; an AIS group for which no CG group
    scores above 85, or whose summed quantity differs from that of the group
    selected, keeps all its rows unmatched. *)
Theorem level4_atomic (token_set_ratio : string -> string -> Z) (st st' : state) :
  NoDup (ids_of (rows (unmatched_ais st))) ->
  level4 token_set_ratio st = Ok st' ->
  exists new,
    matches st' = matches st ++ new /\
    (forall m, In m new ->
       exists ka kc score,
         mr_match_type m = Level4 score /\
         mr_ais_ids m = ids_of (rows (get_group (unmatched_ais st) ka)) /\
         mr_cg_ids m = ids_of (rows (get_group (unmatched_cg st) kc)) /\
         (forall r, In r (rows (unmatched_ais st')) ->
                    ~ In (cell_of r "ID") (mr_ais_ids m)) /\
         (forall r, In r (rows (unmatched_cg st')) ->
                    ~ In (cell_of r "ID") (mr_cg_ids m))) /\
    (forall ka, no_aggregate token_set_ratio st ka ->
       forall r, In r (rows (get_group (unmatched_ais st) ka)) ->
                 In r (rows (unmatched_ais st'))).
Proof.
  intros Hnd H. unfold level4 in H. do 2 inv_bind H.
  destruct (for_groups_level4 _ _ _ _ _ _ H) as [_ [_ [_ [_ [[new [Hm Hn]] Hkeep]]]]].
  exists new. split; [exact Hm|]. split.
  - intros m Hin. destruct (Hn m Hin) as [k [kc [s [_ [_ Hrest]]]]].
    exists k, kc, s. exact Hrest.
  - intros ka Hno r Hr. apply get_group_In in Hr. destruct Hr as [Hr Hname].
    apply Hkeep; [exact Hr|]. intros k _ Hdec Hid.
    unfold ids_of in Hid. apply in_map_iff in Hid. destruct Hid as [r' [Hid Hr']].
    apply get_group_In in Hr'. destruct Hr' as [Hr' Hname'].
    assert (r' = r) by (eapply same_id_same_row; eassumption). subst r'.
    assert (k = ka) by congruence. subst k.
    apply Hdec. apply no_aggregate_decision. exact Hno.
Qed.

Lemma level4_atomic_witness :
  exists new,
    level4 identity_ratio (start_state split_ais split_cg) = Ok split_after_level4 /\
    matches split_after_level4 = matches (start_state split_ais split_cg) ++ new /\
    length new = 1%nat /\
    (forall r,
        In r (rows (get_group (unmatched_ais (start_state split_ais split_cg)) "WIPRO")) ->
        In r (rows (unmatched_ais split_after_level4))).
Proof.
  assert (Hrun : level4 identity_ratio (start_state split_ais split_cg)
                 = Ok split_after_level4).
  { vm_compute. reflexivity. }
  assert (Hnd : NoDup (ids_of (rows (unmatched_ais (start_state split_ais split_cg))))).
  { apply (bool_decide_unpack _). vm_compute. exact I. }
  destruct (level4_atomic identity_ratio _ _ Hnd Hrun) as [new [Hm [_ Hkeep]]].
  exists new. split; [exact Hrun|]. split; [exact Hm|]. split.
  - assert (H1 : length (matches split_after_level4) = 1%nat)
      by (vm_compute; reflexivity).
    assert (H0 : length (matches (start_state split_ais split_cg)) = 0%nat)
      by (vm_compute; reflexivity).
    apply (f_equal (@length _)) in Hm. rewrite length_app, H1, H0 in Hm.
    symmetry. exact Hm.
  - apply Hkeep. right. exists "WIPRO".
    split; [vm_compute; reflexivity | vm_compute; discriminate].
Defined.



(** ** Runs on concrete tables *)

(** C1: on two AIS spellings that both resolve to the one broker group, the
    run ends with nothing unmatched and two level-4 records, and both
    records consume the broker row of id 1. *)
Theorem broker_row_consumed_twice :
  run_view (run twice_ais twice_cg)
  = Ok ([ (Level4 90, [Num 3; Num 4], [Num 1], [Num 0; Num 0]);
          (Level4 90, [Num 1; Num 2], [Num 1], [Num 0; Num 0]) ],
        (ais_columns ++ ["Match ID"; "Match Type"], 0%nat),
        (cg_columns ++ ["Match ID"; "Match Type"], 0%nat)).
Proof. vm_compute. reflexivity. Qed.

(** C7: without the optional purchase-value column a pair matched at level 1
    is reported with that field missing, and the aggregate of level 4 raises
    AttributeError. *)
Theorem aggregate_needs_purchase_value :
  run_view (run no_purchase_pair_ais no_purchase_cg)
  = Ok ([ (Level1, [Num 1], [Num 1], [NA; NA]) ],
        (columns no_purchase_pair_ais ++ ["Match ID"; "Match Type"], 0%nat),
        (cg_columns ++ ["Match ID"; "Match Type"], 0%nat)) /\
  run no_purchase_ais no_purchase_cg = Err AttributeError.
Proof. split; vm_compute; reflexivity. Qed.

(** ** The residual tables and the required columns *)

(** C9, as the code has it: on tables that bring none of the four engine
    column names, each residual table has the input columns of its side
    followed by ['Match ID'] and ['Match Type'], the two columns
    [match_records] adds; the normalized name and the sequence id are
    stripped from the columns and from every row. *)
Theorem unmatched_tables_columns (token_set_ratio : string -> string -> Z)
    (to_datetime to_numeric : cell -> option Z) (ais_df cg_df : frame) (out : output) :
  Forall (fun l => has_column ais_df l = false) helper_columns ->
  Forall (fun l => has_column cg_df l = false) helper_columns ->
  reconcile token_set_ratio to_datetime to_numeric ais_df cg_df = Ok out ->
  columns (unmapped_ais out) = columns ais_df ++ ["Match ID"; "Match Type"] /\
  columns (unmapped_cg out) = columns cg_df ++ ["Match ID"; "Match Type"] /\
  Forall (fun r : row => r !! "Stock Name Clean" = None /\ r !! "ID" = None)
         (rows (unmapped_ais out)) /\
  Forall (fun r : row => r !! "Stock Name Clean" = None /\ r !! "ID" = None)
         (rows (unmapped_cg out)).
Proof.
  intros Ha Hc H. apply reconcile_Ok in H.
  destruct H as [ais_data [cg_data [Hload Hrun]]].
  destruct (load_data_columns _ _ _ _ _ _ Ha Hc Hload) as [Hca Hcc].
  apply match_records_Ok in Hrun. destruct Hrun as [st [Hcas [_ [Hda Hdc]]]].
  destruct (cascade_columns _ _ _ Hcas) as [Hsa Hsc].
  destruct (initial_state_columns _ _ _ _ Ha Hc Hca Hcc) as [Hia Hic].
  rewrite Hia in Hsa. rewrite Hic in Hsc.
  destruct (dropped_columns _ _ _ Ha Hsa Hda) as [H1 H2].
  destruct (dropped_columns _ _ _ Hc Hsc Hdc) as [H3 H4].
  tauto.
Qed.

Lemma unmatched_tables_columns_witness :
  run dated_ais dated_cg = Ok dated_run_output /\
  columns (unmapped_ais dated_run_output) = columns dated_ais ++ ["Match ID"; "Match Type"] /\
  columns (unmapped_cg dated_run_output) = columns dated_cg ++ ["Match ID"; "Match Type"].
Proof.
  assert (Hrun : reconcile identity_ratio parsed_datetime parsed_numeric
                           dated_ais dated_cg = Ok dated_run_output).
  { vm_compute. reflexivity. }
  split; [unfold run; exact Hrun|].
  assert (Ha : Forall (fun l => has_column dated_ais l = false) helper_columns).
  { apply (bool_decide_unpack _). vm_compute. exact I. }
  assert (Hc : Forall (fun l => has_column dated_cg l = false) helper_columns).
  { apply (bool_decide_unpack _). vm_compute. exact I. }
  pose proof (unmatched_tables_columns identity_ratio parsed_datetime parsed_numeric
                dated_ais dated_cg dated_run_output Ha Hc Hrun) as H.
  split; apply H.
Defined.

(** The residual AIS table of a run is not made of the input columns alone. *)
Lemma unmatched_table_has_match_columns :
  exists out,
    run dated_ais dated_cg = Ok out /\
    length (rows (unmapped_ais out)) = 1%nat /\
    columns (unmapped_ais out) <> columns dated_ais /\
    columns (unmapped_ais out) = columns dated_ais ++ ["Match ID"; "Match Type"].
Proof.
  eexists. split; [vm_compute; reflexivity|].
  split; [reflexivity|]. split; [vm_compute; discriminate | vm_compute; reflexivity].
Qed.




(** * Further properties of the engine *)

(** ** Level 2 *)

Lemma level2_pred_mask (a c : row) : level2_mask a c = true <-> level2_pred a c.
Proof. apply level2_mask_spec. Qed.

Lemma level2_body_turn (st st' : state) (a : row) :
  ids_ok (rows (unmatched_ais st)) ->
  ids_ok (rows (unmatched_cg st)) ->
  In a (rows (unmatched_ais st)) ->
  level2_body st a = Ok st' ->
  level2_turn a st st'.
Proof.
  intros Hais Hcg Ha H.
  destruct (level2_body_cases _ _ _ H)
    as [[Hnone Hst]|[c [before [after [Hs [Hc [Hb Hemit]]]]]]].
  - left. split; [|exact Hst]. intros c Hin Hp. apply level2_pred_mask in Hp.
    rewrite (Hnone c Hin) in Hp. discriminate.
  - right. exists c, before, after. split; [apply level2_pred_mask; exact Hc|].
    split.
    + intros x Hx Hp. apply level2_pred_mask in Hp. rewrite (Hb x Hx) in Hp.
      discriminate.
    + eapply emit_pair_paired; eassumption.
Qed.

(** X1: level 2 visits the AIS rows left after level 1 in pool order and
    pairs each with the first CG row of the pool that has the same
    normalized name and the same quantity, whatever the dates; exactly the
    two rows leave the pools and one level-2 record is appended. *)
Theorem level2_first_found (st st' : state) :
  ids_ok (rows (unmatched_ais st)) ->
  ids_ok (rows (unmatched_cg st)) ->
  level2 st = Ok st' ->
  pool_run level2_turn (rows (unmatched_ais st)) st st'.
Proof.
  intros Hais Hcg H.
  apply for_rows_pool_run with (P := is_level2) (body := level2_body).
  - apply level2_pairs_or_skips.
  - intros s a s'. apply level2_body_turn.
  - exact Hais.
  - exact Hcg.
  - apply Hais.
  - apply incl_refl.
  - exact H.
Qed.

Lemma level2_first_found_witness :
  level2 (start_state dated_ais dated_cg) = Ok dated_after_level2 /\
  pool_run level2_turn
           (rows (unmatched_ais (start_state dated_ais dated_cg)))
           (start_state dated_ais dated_cg) dated_after_level2.
Proof.
  assert (Hrun : level2 (start_state dated_ais dated_cg) = Ok dated_after_level2).
  { vm_compute. reflexivity. }
  split; [exact Hrun|].
  apply level2_first_found.
  - apply (bool_decide_unpack _). vm_compute. exact I.
  - apply (bool_decide_unpack _). vm_compute. exact I.
  - exact Hrun.
Defined.

(** ** The group selected at level 4 *)

Section BestGroup.

Variable token_set_ratio : string -> string -> Z.
Variable stock_name : string.

Let score (cg_stock : string) : Z :=
  fuzzy_match_stocks token_set_ratio stock_name cg_stock.

Let turn (best : option string * Z) (cg_stock : string) : option string * Z :=
  let score := fuzzy_match_stocks token_set_ratio stock_name cg_stock in
  if (85 <? score) && (snd best <? score) then (Some cg_stock, score) else best.


End BestGroup.


(** ** Match ids *)

Lemma one_to_S (n : nat) : one_to (S n) = one_to n ++ [Z.of_nat n + 1].
Proof.
  unfold one_to. rewrite seq_S, map_app. simpl. do 2 f_equal. lia.
Qed.

Lemma numbered_append (st st' : state) (m : match_record) :
  numbered st ->
  matches st' = matches st ++ [m] ->
  mr_match_id m = match_id st ->
  match_id st' = match_id st + 1 ->
  numbered st'.
Proof.
  intros [Hids Hnext] Hm Hid Hnext'. unfold numbered, match_ids in *.
  rewrite Hm, map_app, length_app, Hids. simpl.
  replace (length (matches st) + 1)%nat with (S (length (matches st))) by lia.
  rewrite one_to_S, Hid, Hnext. split; [reflexivity | lia].
Qed.

Lemma numbered_for_rows (P : match_type -> Prop) (body : state -> row -> result state)
      (rs : list row) (st st' : state) :
  pairs_or_skips P body ->
  for_rows body st rs = Ok st' -> numbered st -> numbered st'.
Proof.
  intros Hbody. revert st. induction rs as [|a rest IH]; intros st H Hn; simpl in H.
  - injection H as <-. exact Hn.
  - inv_bind H. apply (IH _ H).
    destruct (Hbody _ _ _ Hx) as [->|[c [ty [_ [_ Hemit]]]]]; [exact Hn|].
    apply emit_pair_Ok in Hemit. destruct Hemit as [m [Hid [_ [_ [_ Hst]]]]].
    apply (numbered_append st x m Hn); subst x; simpl; auto.
Qed.

Lemma numbered_for_groups (token_set_ratio : string -> string -> Z)
      (ais_groups cg_groups : frame) (ks : list string) (st st' : state) :
  for_groups (level4_body token_set_ratio ais_groups cg_groups) st ks = Ok st' ->
  numbered st -> numbered st'.
Proof.
  revert st. induction ks as [|k rest IH]; intros st H Hn; simpl in H.
  - injection H as <-. exact Hn.
  - inv_bind H. apply (IH _ H).
    destruct (level4_body_cases _ _ _ _ _ _ Hx)
      as [[_ ->]|[kc [s [m [_ [Hid [_ [_ [_ Hst]]]]]]]]]; [exact Hn|].
    apply (numbered_append st x m Hn); subst x; simpl; auto.
Qed.

Lemma numbered_cascade (token_set_ratio : string -> string -> Z) (st st' : state) :
  cascade token_set_ratio st = Ok st' -> numbered st -> numbered st'.
Proof.
  unfold cascade, level1, level2, level3, level4. intros H Hn. do 3 inv_bind H.
  do 2 inv_bind H.
  apply (numbered_for_groups _ _ _ _ _ _ H).
  apply (numbered_for_rows _ _ _ _ _ (level3_pairs_or_skips token_set_ratio) Hx1).
  apply (numbered_for_rows _ _ _ _ _ level2_pairs_or_skips Hx0).
  apply (numbered_for_rows _ _ _ _ _ level1_pairs_or_skips Hx).
  exact Hn.
Qed.

(** X3: the records of the match table carry the match ids 1, 2, ..., n in
    the order in which the four levels found them. *)
Theorem match_ids_count_up (token_set_ratio : string -> string -> Z)
    (ais_data cg_data : frame) (out : output) :
  match_records token_set_ratio ais_data cg_data = Ok out ->
  match_ids (mapped_data out) = one_to (length (mapped_data out)).
Proof.
  intros H. apply match_records_Ok in H. destruct H as [st [Hcas [Hmd _]]].
  rewrite Hmd. apply (numbered_cascade _ _ _ Hcas).
  split; reflexivity.
Qed.

Lemma match_ids_count_up_witness :
  match_records identity_ratio dated_loaded_ais dated_loaded_cg = Ok dated_output /\
  match_ids (mapped_data dated_output) = one_to (length (mapped_data dated_output)).
Proof.
  assert (Hrun : match_records identity_ratio dated_loaded_ais dated_loaded_cg
                 = Ok dated_output) by (vm_compute; reflexivity).
  split; [exact Hrun|].
  apply (match_ids_count_up identity_ratio dated_loaded_ais dated_loaded_cg).
  exact Hrun.
Defined.

(** ** The order of the residual rows *)

Lemma filter_sublist {A : Type} (f : A -> bool) (l : list A) :
  sublist (List.filter f l) l.
Proof.
  induction l as [|x l IH]; simpl; [constructor|].
  destruct (f x); [apply sublist_skip | apply sublist_cons]; exact IH.
Qed.

Lemma sublist_of_map {A B : Type} (f : A -> B) (k : list B) (l : list A) :
  sublist k (map f l) -> exists l', sublist l' l /\ k = map f l'.
Proof.
  revert k. induction l as [|x l IH]; intros k H; simpl in H.
  - inversion H; subst. exists []. split; [constructor | reflexivity].
  - inversion H as [|y k1 l2 Hsub|y k1 l2 Hsub]; subst.
    + destruct (IH _ Hsub) as [l' [Hl' ->]].
      exists (x :: l'). split; [apply sublist_skip; exact Hl' | reflexivity].
    + destruct (IH _ Hsub) as [l' [Hl' ->]].
      exists l'. split; [apply sublist_cons; exact Hl' | reflexivity].
Qed.

Lemma pools_shrink_refl (st : state) : pools_shrink st st.
Proof. split; reflexivity. Qed.

Lemma pools_shrink_trans (st st1 st2 : state) :
  pools_shrink st st1 -> pools_shrink st1 st2 -> pools_shrink st st2.
Proof. intros [H1 H2] [H3 H4]. split; etransitivity; eassumption. Qed.

Lemma pools_shrink_for_rows (P : match_type -> Prop)
      (body : state -> row -> result state) (rs : list row) (st st' : state) :
  pairs_or_skips P body ->
  for_rows body st rs = Ok st' -> pools_shrink st st'.
Proof.
  intros Hbody. revert st. induction rs as [|a rest IH]; intros st H; simpl in H.
  - injection H as <-. apply pools_shrink_refl.
  - inv_bind H. eapply pools_shrink_trans; [|apply (IH _ H)].
    destruct (Hbody _ _ _ Hx) as [->|[c [ty [_ [_ Hemit]]]]];
      [apply pools_shrink_refl|].
    apply emit_pair_Ok in Hemit. destruct Hemit as [m [_ [_ [_ [_ ->]]]]].
    split; simpl; apply filter_sublist.
Qed.

Lemma pools_shrink_for_groups (token_set_ratio : string -> string -> Z)
      (ais_groups cg_groups : frame) (ks : list string) (st st' : state) :
  for_groups (level4_body token_set_ratio ais_groups cg_groups) st ks = Ok st' ->
  pools_shrink st st'.
Proof.
  revert st. induction ks as [|k rest IH]; intros st H; simpl in H.
  - injection H as <-. apply pools_shrink_refl.
  - inv_bind H. eapply pools_shrink_trans; [|apply (IH _ H)].
    destruct (level4_body_cases _ _ _ _ _ _ Hx)
      as [[_ ->]|[kc [s [m [_ [_ [_ [_ [_ ->]]]]]]]]]; [apply pools_shrink_refl|].
    split; simpl; apply filter_sublist.
Qed.

Lemma pools_shrink_cascade (token_set_ratio : string -> string -> Z) (st st' : state) :
  cascade token_set_ratio st = Ok st' -> pools_shrink st st'.
Proof.
  unfold cascade, level1, level2, level3, level4. intros H. do 5 inv_bind H.
  eapply pools_shrink_trans;
    [apply (pools_shrink_for_rows _ _ _ _ _ level1_pairs_or_skips Hx)|].
  eapply pools_shrink_trans;
    [apply (pools_shrink_for_rows _ _ _ _ _ level2_pairs_or_skips Hx0)|].
  eapply pools_shrink_trans;
    [apply (pools_shrink_for_rows _ _ _ _ _ (level3_pairs_or_skips token_set_ratio) Hx1)|].
  apply (pools_shrink_for_groups _ _ _ _ _ _ H).
Qed.



(** ** Precedence of level 2 *)






(** ** Empty input *)









Section Normalized.

Variable to_datetime : cell -> option Z.
Variable to_numeric : cell -> option Z.




End Normalized.




(** ** What [load_data] guarantees *)




(** ** Scores that do not depend on the fallback *)

(** X8: equal names, names sharing a five-character window and pairs of the
    abbreviation table score at least 90 whatever the external fallback
    returns, hence pass the thresholds of level 3 (80) and level 4 (85). *)
Theorem strong_tiers_pass_thresholds (token_set_ratio : string -> string -> Z)
    (a b : string) :
  a = b \/ substring_tier a b \/ known_abbreviation a b ->
  90 <= fuzzy_match_stocks token_set_ratio a b <= 100.
Proof.
  intros H. unfold fuzzy_match_stocks.
  destruct (String.eqb a b) eqn:Heq; [lia|].
  destruct ((5 <=? String.length a)%nat && (5 <=? String.length b)%nat
            && common_substring a b) eqn:Hsub; [lia|].
  destruct (abbreviation_hit a b) eqn:Habb; [lia|].
  exfalso. destruct H as [H|[H|H]].
  - apply String.eqb_neq in Heq. contradiction.
  - apply substring_tier_spec in H. congruence.
  - apply abbreviation_hit_spec in H. congruence.
Qed.

Lemma strong_tiers_pass_thresholds_witness :
  90 <= fuzzy_match_stocks identity_ratio "LIFE INSURANCE CORP" "LIC" <= 100.
Proof.
  apply strong_tiers_pass_thresholds. right. right.
  apply abbreviation_hit_spec. vm_compute. reflexivity.
Defined.

(** ** The quantities of a record *)

Lemma pair_record_quantities (mid : Z) (ty : match_type) (a c : row) (m : match_record) :
  pair_record mid ty a c = Ok m ->
  mr_field m "Quantity (AIS)" = cell_of a "Quantity (AIS)" /\
  mr_field m "Quantity (CG)" = cell_of c "Quantity (CG)".
Proof.
  unfold pair_record. intros H. do 8 inv_bind H. injection H as <-.
  apply row_get_Ok in Hx1, Hx2. destruct Hx1 as [_ <-], Hx2 as [_ <-].
  split; reflexivity.
Qed.

Lemma emit_pair_quantities (st st' : state) (ty : match_type) (a c : row) :
  emit_pair st ty a c = Ok st' ->
  exists m,
    matches st' = matches st ++ [m] /\
    mr_field m "Quantity (AIS)" = cell_of a "Quantity (AIS)" /\
    mr_field m "Quantity (CG)" = cell_of c "Quantity (CG)".
Proof.
  unfold emit_pair. intros H. do 3 inv_bind H. injection H as <-.
  apply pair_record_quantities in Hx. exists x. simpl. tauto.
Qed.

(** A turn that leaves the records alone or appends one that satisfies [Q]. *)
Lemma for_rows_records (Q : match_record -> Prop) (body : state -> row -> result state)
      (rs : list row) (st st' : state) :
  (forall st a st', body st a = Ok st' ->
     st' = st \/ exists m, matches st' = matches st ++ [m] /\ Q m) ->
  for_rows body st rs = Ok st' ->
  Forall Q (matches st) -> Forall Q (matches st').
Proof.
  intros Hbody. revert st. induction rs as [|a rest IH]; intros st H HQ; simpl in H.
  - injection H as <-. exact HQ.
  - inv_bind H. apply (IH _ H).
    destruct (Hbody _ _ _ Hx) as [->|[m [Hm Hq]]]; [exact HQ|].
    rewrite Hm. apply Forall_app. split; [exact HQ|]. constructor; [exact Hq | constructor].
Qed.

Lemma level1_body_quantities (st st' : state) (a : row) :
  level1_body st a = Ok st' ->
  st' = st \/ exists m, matches st' = matches st ++ [m] /\ quantities_agree m.
Proof.
  intros H.
  destruct (level1_body_cases _ _ _ H) as [[_ ->]|[[_ [_ ->]]|[_ Hhit]]]; [auto..|].
  destruct Hhit as [c [before [after [_ [Hpred [_ Hemit]]]]]].
  right. apply emit_pair_quantities in Hemit. destruct Hemit as [m [Hm [Ha Hc]]].
  exists m. split; [exact Hm|]. destruct Hpred as [_ [_ [Hq [Hna _]]]].
  unfold quantities_agree. rewrite Ha, Hc. split; congruence.
Qed.

Lemma level2_body_quantities (st st' : state) (a : row) :
  level2_body st a = Ok st' ->
  st' = st \/ exists m, matches st' = matches st ++ [m] /\ quantities_agree m.
Proof.
  intros H.
  destruct (level2_body_cases _ _ _ H)
    as [[_ ->]|[c [before [after [_ [Hc [_ Hemit]]]]]]]; [auto|].
  right. apply emit_pair_quantities in Hemit. destruct Hemit as [m [Hm [Ha Hcq]]].
  exists m. split; [exact Hm|]. apply level2_pred_mask in Hc.
  destruct Hc as [_ [_ [Hq Hna]]].
  unfold quantities_agree. rewrite Ha, Hcq. split; congruence.
Qed.

Lemma level3_body_quantities (token_set_ratio : string -> string -> Z)
      (st st' : state) (a : row) :
  level3_body token_set_ratio st a = Ok st' ->
  st' = st \/ exists m, matches st' = matches st ++ [m] /\ quantities_agree m.
Proof.
  intros H.
  destruct (level3_body_cases _ _ _ _ H)
    as [[_ ->]|[c [s [before [after [_ [Hcand [_ [_ Hemit]]]]]]]]]; [auto|].
  right. apply emit_pair_quantities in Hemit. destruct Hemit as [m [Hm [Ha Hcq]]].
  exists m. split; [exact Hm|].
  destruct Hcand as [na [nc [_ [_ [_ [_ [Hq Hna]]]]]]].
  unfold quantities_agree. rewrite Ha, Hcq. split; congruence.
Qed.

Lemma level4_body_quantities (token_set_ratio : string -> string -> Z)
      (ais_groups cg_groups : frame) (st st' : state) (k : string) :
  level4_body token_set_ratio ais_groups cg_groups st k = Ok st' ->
  st' = st \/ exists m, matches st' = matches st ++ [m] /\ quantities_agree m.
Proof.
  unfold level4_body. intros H.
  destruct (fst (best_group token_set_ratio k (group_keys cg_groups))) as [kc|];
    [|left; injection H as <-; reflexivity].
  destruct (String.eqb kc ""); [left; injection H as <-; reflexivity|].
  do 2 inv_bind H.
  destruct (x =? x0) eqn:Hsum; [|left; injection H as <-; reflexivity].
  apply Z.eqb_eq in Hsum. subst x0. right. do 3 inv_bind H. injection H as <-.
  exists x0. split; [reflexivity|].
  unfold aggregate_record in Hx1. do 8 inv_bind Hx1. injection Hx1 as <-.
  split; [reflexivity | discriminate].
Qed.

Lemma for_groups_records (Q : match_record -> Prop)
      (body : state -> string -> result state) (ks : list string) (st st' : state) :
  (forall st k st', body st k = Ok st' ->
     st' = st \/ exists m, matches st' = matches st ++ [m] /\ Q m) ->
  for_groups body st ks = Ok st' ->
  Forall Q (matches st) -> Forall Q (matches st').
Proof.
  intros Hbody. revert st. induction ks as [|k rest IH]; intros st H HQ; simpl in H.
  - injection H as <-. exact HQ.
  - inv_bind H. apply (IH _ H).
    destruct (Hbody _ _ _ Hx) as [->|[m [Hm Hq]]]; [exact HQ|].
    rewrite Hm. apply Forall_app. split; [exact HQ|]. constructor; [exact Hq | constructor].
Qed.

(** X9: in every record of the match table, of whichever level, the AIS
    quantity and the CG quantity are the same number: the row quantities at
    levels 1 to 3, the group sums at level 4. *)
Theorem matched_quantities_agree (token_set_ratio : string -> string -> Z)
    (ais_data cg_data : frame) (out : output) :
  match_records token_set_ratio ais_data cg_data = Ok out ->
  Forall quantities_agree (mapped_data out).
Proof.
  intros H. apply match_records_Ok in H. destruct H as [st [Hcas [-> _]]].
  unfold cascade, level1, level2, level3, level4 in Hcas. do 5 inv_bind Hcas.
  apply (for_groups_records quantities_agree _ _ _ _
           (fun s k s' => level4_body_quantities token_set_ratio _ _ s s' k) Hcas).
  apply (for_rows_records quantities_agree _ _ _ _
           (fun s a s' => level3_body_quantities token_set_ratio s s' a) Hx1).
  apply (for_rows_records quantities_agree _ _ _ _
           (fun s a s' => level2_body_quantities s s' a) Hx0).
  apply (for_rows_records quantities_agree _ _ _ _
           (fun s a s' => level1_body_quantities s s' a) Hx).
  constructor.
Qed.

Lemma matched_quantities_agree_witness :
  match_records identity_ratio dated_loaded_ais dated_loaded_cg = Ok dated_output /\
  Forall quantities_agree (mapped_data dated_output).
Proof.
  assert (Hrun : match_records identity_ratio dated_loaded_ais dated_loaded_cg
                 = Ok dated_output) by (vm_compute; reflexivity).
  split; [exact Hrun|].
  apply (matched_quantities_agree identity_ratio dated_loaded_ais dated_loaded_cg).
  exact Hrun.
Defined.

(** ** The keys of a grouping *)

Lemma ascii_compare_eq (a b : ascii) : Ascii.compare a b = Eq -> a = b.
Proof. apply Ascii.compare_eq_iff. Qed.

Lemma ascii_compare_lt_trans (a b c : ascii) :
  Ascii.compare a b = Lt -> Ascii.compare b c = Lt -> Ascii.compare a c = Lt.
Proof.
  unfold Ascii.compare. rewrite !N.compare_lt_iff. lia.
Qed.

Lemma string_lt_trans (a b c : string) : string_lt a b -> string_lt b c -> string_lt a c.
Proof.
  unfold string_lt. revert b c. induction a as [|x a IH]; intros b c Hab Hbc.
  - destruct b as [|y b]; [discriminate|]. destruct c as [|z c]; [discriminate|].
    reflexivity.
  - destruct b as [|y b]; [discriminate|]. destruct c as [|z c]; [discriminate|].
    simpl in *.
    destruct (Ascii.compare x y) eqn:Hxy; try discriminate;
      destruct (Ascii.compare y z) eqn:Hyz; try discriminate.
    + apply ascii_compare_eq in Hxy, Hyz. subst y z.
      replace (Ascii.compare x x) with Eq
        by (symmetry; unfold Ascii.compare; apply N.compare_refl).
      eapply IH; eassumption.
    + apply ascii_compare_eq in Hxy. subst y. rewrite Hyz. reflexivity.
    + apply ascii_compare_eq in Hyz. subst z. rewrite Hxy. reflexivity.
    + rewrite (ascii_compare_lt_trans _ _ _ Hxy Hyz). reflexivity.
Qed.

Lemma string_compare_refl (a : string) : String.compare a a = Eq.
Proof.
  induction a as [|x a IH]; simpl; [reflexivity|].
  replace (Ascii.compare x x) with Eq
    by (symmetry; unfold Ascii.compare; apply N.compare_refl).
  exact IH.
Qed.

Lemma string_lt_irrefl (a : string) : ~ string_lt a a.
Proof. unfold string_lt. rewrite string_compare_refl. discriminate. Qed.

Lemma string_gt_lt (a b : string) : String.compare a b = Gt -> string_lt b a.
Proof.
  unfold string_lt. intros H. rewrite String.compare_antisym, H. reflexivity.
Qed.

Lemma insert_key_In (k x : string) (ks : list string) :
  In x (insert_key k ks) <-> x = k \/ In x ks.
Proof.
  induction ks as [|k' ks IH]; simpl.
  - split; [intros [H|[]]; auto | intros [H|[]]; auto].
  - destruct (String.compare k k') eqn:Hc; simpl.
    + apply String.compare_eq_iff in Hc. subst k'. split; [auto|].
      intros [H|H]; [left; auto | exact H].
    + split; [intros [H|H]; auto | intros [H|H]; auto].
    + rewrite IH. split; [intros [H|[H|H]]; auto | intros [H|[H|H]]; auto].
Qed.

Lemma insert_key_sorted (k : string) (ks : list string) :
  StronglySorted string_lt ks -> StronglySorted string_lt (insert_key k ks).
Proof.
  induction ks as [|k' ks IH]; intros Hs; simpl.
  - constructor; constructor.
  - apply StronglySorted_inv in Hs. destruct Hs as [Hs Hall].
    destruct (String.compare k k') eqn:Hc.
    + constructor; assumption.
    + constructor; [constructor; assumption|].
      constructor; [exact Hc|].
      rewrite List.Forall_forall in *. intros x Hx.
      apply string_lt_trans with (b := k'); [exact Hc | auto].
    + constructor; [apply IH; exact Hs|].
      rewrite List.Forall_forall in *. intros x Hx. apply insert_key_In in Hx.
      destruct Hx as [->|Hx]; [apply string_gt_lt; exact Hc | auto].
Qed.

Lemma sorted_keys_NoDup (ks : list string) : StronglySorted string_lt ks -> NoDup ks.
Proof.
  induction 1 as [|k ks Hs IH Hall]; [constructor|].
  apply NoDup_cons. split; [|exact IH].
  intros Hin. apply list_elem_of_In in Hin.
  rewrite List.Forall_forall in Hall. apply (string_lt_irrefl k). auto.
Qed.

(** X10: the name groups of a frame are keyed by the distinct present
    normalized names of its rows and are listed in strictly ascending string
    order, so each group is visited once and in a fixed order. *)
Theorem group_keys_ascending (df : frame) :
  StronglySorted string_lt (group_keys df) /\
  forall k, In k (group_keys df) <->
            exists r, In r (rows df) /\ cell_of r "Stock Name Clean" = Str k.
Proof.
  unfold group_keys. induction (rows df) as [|r rs [IHs IHin]]; simpl.
  - split; [constructor|]. intros k. split; [intros [] | intros [r [[] _]]].
  - destruct (cell_of r "Stock Name Clean") as [| |s|] eqn:Hname.
    1,2,4: split; [exact IHs|]; intros k; rewrite IHin; split;
      [intros [x [Hx Hk]]; eauto
      |intros [x [[Hx|Hx] Hk]]; [subst x; congruence | eauto]].
    split; [apply insert_key_sorted; exact IHs|].
    intros k. rewrite insert_key_In, IHin. split.
    + intros [->|[x [Hx Hk]]]; eauto.
    + intros [x [[Hx|Hx] Hk]]; [subst x; left; congruence | eauto].
Qed.

(** ** Every AIS row ends up in one place *)

Lemma consumed_ais_app (ms : list match_record) (m : match_record) :
  consumed_ais (ms ++ [m]) = consumed_ais ms ++ mr_ais_ids m.
Proof.
  unfold consumed_ais. rewrite map_app, concat_app. simpl.
  rewrite app_nil_r. reflexivity.
Qed.

Lemma ids_of_app (l1 l2 : list row) : ids_of (l1 ++ l2) = ids_of l1 ++ ids_of l2.
Proof. unfold ids_of. apply map_app. Qed.

Lemma filter_partition {A : Type} (f : A -> bool) (l : list A) :
  Permutation (List.filter (fun x => negb (f x)) l ++ List.filter f l) l.
Proof.
  induction l as [|x l IH]; simpl; [constructor|].
  destruct (f x); simpl.
  - apply Permutation_sym, Permutation_cons_app, Permutation_sym, IH.
  - constructor. exact IH.
Qed.

Lemma NoDup_rows_of_ids (rs : list row) : NoDup (ids_of rs) -> NoDup rs.
Proof. unfold ids_of. apply NoDup_fmap_1. Qed.

Lemma emit_pair_ledger (st st' : state) (ty : match_type) (a c : row) :
  ids_ok (rows (unmatched_ais st)) ->
  In a (rows (unmatched_ais st)) ->
  emit_pair st ty a c = Ok st' ->
  Permutation (ais_ledger st') (ais_ledger st).
Proof.
  intros Hok Ha H. apply emit_pair_Ok in H.
  destruct H as [m [_ [_ [Hids [_ ->]]]]].
  apply in_split in Ha. destruct Ha as [before [after Hs]].
  unfold ais_ledger. cbn [unmatched_ais matches frame_filter rows].
  rewrite consumed_ais_app, Hids. rewrite Hs in Hok |- *.
  rewrite (filter_out_id _ _ _ Hok), !ids_of_app. simpl.
  rewrite <- !app_assoc. apply Permutation_app_head.
  simpl. rewrite app_assoc. apply Permutation_sym, Permutation_cons_append.
Qed.

Lemma for_rows_ledger (P : match_type -> Prop) (body : state -> row -> result state)
      (rs : list row) (st st' : state) :
  pairs_or_skips P body ->
  ids_ok (rows (unmatched_ais st)) ->
  NoDup (ids_of rs) ->
  incl rs (rows (unmatched_ais st)) ->
  for_rows body st rs = Ok st' ->
  ids_ok (rows (unmatched_ais st')) /\
  Permutation (ais_ledger st') (ais_ledger st).
Proof.
  intros Hpairs. revert st.
  induction rs as [|a rest IH]; intros st Hok Hnd Hincl H; simpl in H.
  - injection H as <-. split; [exact Hok | reflexivity].
  - inv_bind H. rename x into st1.
    assert (Ha : In a (rows (unmatched_ais st))) by (apply Hincl; left; reflexivity).
    assert (Hrest : incl rest (rows (unmatched_ais st))).
    { intros r Hr. apply Hincl. right. exact Hr. }
    unfold ids_of in Hnd. simpl in Hnd. apply NoDup_cons in Hnd.
    destruct Hnd as [Hnotin Hnd].
    destruct (Hpairs _ _ _ Hx) as [->|[c [ty [_ [_ Hemit]]]]].
    + apply IH; assumption.
    + pose proof (emit_pair_ledger _ _ _ _ _ Hok Ha Hemit) as Hperm.
      apply emit_pair_Ok in Hemit. destruct Hemit as [m [_ [_ [_ [_ Hst]]]]].
      assert (Hok1 : ids_ok (rows (unmatched_ais st1))).
      { subst st1. simpl. apply filter_keeps_ids_ok. exact Hok. }
      destruct (IH st1 Hok1 Hnd) as [Hok' Hperm']; [|exact H|].
      * subst st1. simpl. intros r Hr. apply filter_In. split; [apply Hrest; exact Hr|].
        apply negb_true_iff, cell_eqb_neq. intros Heq. apply Hnotin.
        rewrite <- Heq. apply list_elem_of_In, in_map_iff. eauto.
      * split; [exact Hok'|]. etransitivity; eassumption.
Qed.

Section Level4Ledger.

Variable token_set_ratio : string -> string -> Z.
Variables ais_groups cg_groups : frame.
Hypothesis ais_groups_ids : NoDup (ids_of (rows ais_groups)).

Lemma group_in_pool_filter (cur : list row) (k : string) :
  NoDup (ids_of cur) ->
  incl cur (rows ais_groups) ->
  incl (rows (get_group ais_groups k)) cur ->
  Permutation
    (List.filter (fun x => isin (cell_of x "ID") (ids_of (rows (get_group ais_groups k))))
                 cur)
    (rows (get_group ais_groups k)).
Proof using ais_groups_ids.
  intros Hnd Hcur Hgroup. apply NoDup_Permutation.
  - apply NoDup_rows_of_ids, filter_keeps_ids_nodup, Hnd.
  - apply NoDup_rows_of_ids. unfold get_group, frame_filter. simpl.
    apply filter_keeps_ids_nodup, ais_groups_ids.
  - intros r. rewrite !list_elem_of_In, filter_In, isin_spec. split.
    + intros [Hr Hid]. unfold ids_of in Hid. apply in_map_iff in Hid.
      destruct Hid as [g [Hid Hg]].
      assert (g = r); [|subst g; exact Hg].
      apply get_group_In in Hg as Hg'.
      apply (same_id_same_row (rows ais_groups)); auto; tauto.
    + intros Hr. split; [apply Hgroup; exact Hr|].
      unfold ids_of. apply in_map_iff. eauto.
Qed.

Lemma for_groups_ledger (ks : list string) (st st' : state) :
  NoDup ks ->
  NoDup (ids_of (rows (unmatched_ais st))) ->
  incl (rows (unmatched_ais st)) (rows ais_groups) ->
  (forall k, In k ks ->
     incl (rows (get_group ais_groups k)) (rows (unmatched_ais st))) ->
  for_groups (level4_body token_set_ratio ais_groups cg_groups) st ks = Ok st' ->
  Permutation (ais_ledger st') (ais_ledger st).
Proof using ais_groups_ids.
  revert st. induction ks as [|k rest IH]; intros st Hks Hnd Hcur Hgroups H; simpl in H.
  - injection H as <-. reflexivity.
  - inv_bind H. rename x into st1.
    apply NoDup_cons in Hks. destruct Hks as [Hk Hks].
    destruct (level4_body_cases _ _ _ _ _ _ Hx)
      as [[_ ->]|[kc [s [m [_ [_ [_ [Hids [_ Hst1]]]]]]]]].
    + apply IH; try assumption. intros k' Hk'. apply Hgroups. right. exact Hk'.
    + assert (Hstep : Permutation (ais_ledger st1) (ais_ledger st)).
      { subst st1. unfold ais_ledger. cbn [unmatched_ais matches frame_filter rows].
        rewrite consumed_ais_app, Hids.
        pose proof (filter_partition
          (fun x => isin (cell_of x "ID") (ids_of (rows (get_group ais_groups k))))
          (rows (unmatched_ais st))) as Hpart.
        pose proof (group_in_pool_filter (rows (unmatched_ais st)) k Hnd Hcur
                      (Hgroups k (or_introl eq_refl))) as Hgrp.
        apply (Permutation_map (fun r => cell_of r "ID")) in Hpart, Hgrp.
        rewrite map_app in Hpart.
        change (map (fun r : row => cell_of r "ID")) with ids_of in Hpart, Hgrp.
        etransitivity; [|apply Permutation_app_tail; exact Hpart].
        rewrite <- app_assoc. apply Permutation_app_head.
        etransitivity; [apply Permutation_app_comm|].
        apply Permutation_app_tail, Permutation_sym, Hgrp. }
      etransitivity; [|exact Hstep].
      apply IH; try assumption.
      * subst st1. cbn [unmatched_ais frame_filter rows].
        apply filter_keeps_ids_nodup. exact Hnd.
      * subst st1. cbn [unmatched_ais frame_filter rows].
        eapply incl_tran; [apply filter_incl | exact Hcur].
      * intros k' Hk' r Hr. subst st1. cbn [unmatched_ais frame_filter rows].
        apply filter_In.
        split; [apply (Hgroups k' (or_intror Hk')); exact Hr|].
        apply negb_true_iff.
        destruct (isin (cell_of r "ID") (ids_of (rows (get_group ais_groups k))))
          eqn:Hisin; [|reflexivity].
        exfalso. apply isin_spec in Hisin. unfold ids_of in Hisin.
        apply in_map_iff in Hisin. destruct Hisin as [g [Hid Hg]].
        apply get_group_In in Hg, Hr. destruct Hg as [Hg Hgk], Hr as [Hr Hrk].
        assert (g = r) by (apply (same_id_same_row (rows ais_groups)); auto).
        subst g. assert (k = k') by congruence. subst k'.
        apply Hk. apply list_elem_of_In. exact Hk'.
Qed.

End Level4Ledger.

Lemma level4_ledger (token_set_ratio : string -> string -> Z) (st st' : state) :
  NoDup (ids_of (rows (unmatched_ais st))) ->
  level4 token_set_ratio st = Ok st' ->
  Permutation (ais_ledger st') (ais_ledger st).
Proof.
  intros Hnd H. unfold level4 in H. do 2 inv_bind H.
  apply (for_groups_ledger token_set_ratio _ _ Hnd _ _ _) in H; try assumption.
  - apply sorted_keys_NoDup, group_keys_ascending.
  - apply incl_refl.
  - intros k _ r Hr. apply get_group_In in Hr. tauto.
Qed.

(** X11: every AIS row ends up in exactly one place: the AIS ids of the
    residual table together with the AIS ids consumed by the records of the
    match table are the ids of the AIS input, each once. *)
Theorem ais_rows_partitioned (token_set_ratio : string -> string -> Z)
    (ais_data cg_data : frame) (out : output) :
  ids_ok (rows ais_data) ->
  match_records token_set_ratio ais_data cg_data = Ok out ->
  exists kept,
    sublist kept (rows ais_data) /\
    rows (unmapped_ais out) = map residual_row kept /\
    Permutation (ids_of kept ++ consumed_ais (mapped_data out))
                (ids_of (rows ais_data)) /\
    NoDup (ids_of kept ++ consumed_ais (mapped_data out)).
Proof.
  intros Hok Hrun.
  apply match_records_Ok in Hrun. destruct Hrun as [st4 [Hcas [Hmd [Hda _]]]].
  destruct (initial_state_rows ais_data cg_data) as [Hra _].
  pose proof (pools_shrink_cascade _ _ _ Hcas) as [Hsub _].
  rewrite Hra in Hsub. apply sublist_of_map in Hsub. destruct Hsub as [kept [Hsub Hkept]].
  apply frame_drop_Ok in Hda. destruct Hda as [_ Hda].
  assert (Hperm : Permutation (ids_of kept ++ consumed_ais (mapped_data out))
                              (ids_of (rows ais_data))).
  2:{ exists kept. split; [exact Hsub|]. split.
      - rewrite Hda, Hkept, map_map. reflexivity.
      - split; [exact Hperm|].
        rewrite Hperm. apply Hok. }
  assert (Hok0 : ids_ok (rows (unmatched_ais (initial_state ais_data cg_data)))).
  { rewrite Hra. apply ids_ok_add_match_columns. exact Hok. }
  unfold cascade, level1, level2, level3 in Hcas. do 3 inv_bind Hcas.
  destruct (for_rows_ledger _ _ _ _ _ level1_pairs_or_skips Hok0
              (proj1 Hok0) (incl_refl _) Hx) as [Hok1 Hp1].
  destruct (for_rows_ledger _ _ _ _ _ level2_pairs_or_skips Hok1
              (proj1 Hok1) (incl_refl _) Hx0) as [Hok2 Hp2].
  destruct (for_rows_ledger _ _ _ _ _ (level3_pairs_or_skips token_set_ratio) Hok2
              (proj1 Hok2) (incl_refl _) Hx1) as [Hok3 Hp3].
  pose proof (level4_ledger _ _ _ (proj1 Hok3) Hcas) as Hp4.
  assert (Hall : Permutation (ais_ledger st4)
                             (ais_ledger (initial_state ais_data cg_data))).
  { etransitivity; [exact Hp4|]. etransitivity; [exact Hp3|].
    etransitivity; [exact Hp2 | exact Hp1]. }
  unfold ais_ledger in Hall. rewrite Hkept, Hra, !ids_of_add_match_columns in Hall.
  rewrite Hmd. change (matches (initial_state ais_data cg_data))
    with (@nil match_record) in Hall.
  unfold consumed_ais at 2 in Hall. simpl in Hall. rewrite app_nil_r in Hall.
  exact Hall.
Qed.

Lemma ais_rows_partitioned_witness :
  match_records identity_ratio dated_loaded_ais dated_loaded_cg = Ok dated_output /\
  exists kept,
    sublist kept (rows dated_loaded_ais) /\
    rows (unmapped_ais dated_output) = map residual_row kept /\
    Permutation (ids_of kept ++ consumed_ais (mapped_data dated_output))
                (ids_of (rows dated_loaded_ais)) /\
    NoDup (ids_of kept ++ consumed_ais (mapped_data dated_output)).
Proof.
  assert (Hrun : match_records identity_ratio dated_loaded_ais dated_loaded_cg
                 = Ok dated_output) by (vm_compute; reflexivity).
  split; [exact Hrun|].
  apply (ais_rows_partitioned identity_ratio dated_loaded_ais dated_loaded_cg).
  - apply (bool_decide_unpack _). vm_compute. exact I.
  - exact Hrun.
Defined.

(** ** The stock-wise totals *)





(** ** The normalized name *)












(** ** The stock-wise totals lose no record *)




Section GroupSums.

Variable label : string.

Let value (m : match_record) : Z :=
  match mr_field m label with
  | Num z => z
  | _ => 0
  end.





End GroupSums.




(** ** The two reports agree on the sales difference *)




